(** * geomstats.solvers: ODE initial-value solvers and the exponential map

    A shallow embedding of [geomstats/solvers.py]: the fixed-step integrator
    [GSIntegrator], the adaptive adapter [SCPSolveIVP] around
    [scipy.integrate.solve_ivp], and [ExpODESolver], which integrates a
    metric's geodesic equation to compute the exponential map.

    Conventions of the embedding.
    - Python floats are exact rationals ([Qc], Leibniz equality); rounding is
      not modelled.
    - A Python call that may raise returns [res A]: [Ok a] or [Raise e].
    - An object mutated by a method is passed in and returned explicitly;
      a call that raises leaves the object as it was (every method below
      assigns to [self] only after its last fallible operation).
    - A dict ([OdeResult], keyword options, the module-level tables) is a
      [gmap] keyed by strings. *)

From Stdlib Require Import QArith Qcanon ZArith Lia.
From stdpp Require Import base numbers list strings gmap.

Local Open Scope Z_scope.

(** ** Python exceptions and the result monad *)

Inductive exn : Type :=
  | KeyError
  | ZeroDivisionError
  | ValueError
  | IndexError
  | AttributeError
  | TypeError
  | InvalidConfiguration
  | SolverError.

Inductive res (A : Type) : Type :=
  | Ok (a : A)
  | Raise (e : exn).
Arguments Ok {A} a.
Arguments Raise {A} e.

Definition bind {A B : Type} (m : res A) (k : A -> res B) : res B :=
  match m with
  | Ok a => k a
  | Raise e => Raise e
  end.

Notation "'let*' x := e 'in' k" := (bind e (fun x => k))
  (at level 10, x pattern, e at level 100, k at level 200, only parsing).

Definition returns {A : Type} (m : res A) : Prop := exists a, m = Ok a.

(** ** Numeric arrays

    An array is its shape and its elements in row-major order, the way the
    backend stores a contiguous array. *)

Record ndarray : Type := mk_ndarray { shape : list nat; data : list Qc }.

Definition size_of (s : list nat) : nat := foldr Nat.mul 1%nat s.

Definition well_formed (a : ndarray) : Prop :=
  length (data a) = size_of (shape a).

(** The elements of an array as fractions in lowest terms. *)
Definition values (a : ndarray) : list Q := map this (data a).

(** Values a Python name can hold in this module. *)
Inductive pyval : Type :=
  | PFloat (x : Qc)
  | PInt (z : Z)
  | PBool (b : bool)
  | PStr (s : string)
  | PNone
  | PArr (a : ndarray).

(** A vector field as the integrators call it: two positional arguments,
    [(state, time)] or [(time, state)] depending on the convention. *)
Definition callable2 : Type := pyval -> pyval -> res ndarray.

(** *** The array backend

    The functions of [geomstats.backend] ([gs]) the solvers call, and the
    indexing and arithmetic of its arrays. The spec treats the backend as a
    generic N-dimensional numeric array; the definitions follow the NumPy
    semantics of the default backend. *)

Definition same_shape_as (a : ndarray) (b : ndarray) : bool :=
  bool_decide (shape b = shape a).

(** Modelled from the spec: [gs.array(states)] of the backend, absent from
    src/: a list of arrays of one shape becomes one array with a new
    outermost axis. *)
Definition gs_array (l : list ndarray) : res ndarray :=
  match l with
  | [] => Ok (mk_ndarray [0%nat] [])
  | a :: _ =>
      if forallb (same_shape_as a) l
      then Ok (mk_ndarray (length l :: shape a) (concat (map data l)))
      else Raise ValueError
  end.

(** Modelled from the spec: [gs.stack(arrays)] of the backend, absent from
    src/: stacking along a new first axis. *)
Definition gs_stack (l : list ndarray) : res ndarray :=
  match l with
  | [] => Raise ValueError
  | _ :: _ => gs_array l
  end.

(** Modelled from the spec: [gs.flatten(a)] of the backend, absent from src/. *)
Definition gs_flatten (a : ndarray) : ndarray :=
  mk_ndarray [length (data a)] (data a).

(** [n] consecutive blocks of [m] elements. *)
Fixpoint chunks (n m : nat) (d : list Qc) : list (list Qc) :=
  match n with
  | O => []
  | S n' => take m d :: chunks n' m (drop m d)
  end.

(** Broadcasting of the elements from shape [s] to shape [t] of the same
    rank: an axis of length 1 is repeated. *)
Fixpoint broadcast_data (s t : list nat) (d : list Qc) : list Qc :=
  match s, t with
  | si :: s', ti :: t' =>
      let blocks := map (broadcast_data s' t') (chunks si (size_of s') d) in
      if decide (si = ti) then concat blocks
      else concat (replicate ti (hd [] blocks))
  | _, _ => d
  end.

Definition axis_compatible (p : nat * nat) : bool :=
  bool_decide (p.1 = p.2) || bool_decide (p.1 = 1%nat).

Definition pad_shape (s : list nat) (rank : nat) : list nat :=
  replicate (rank - length s) 1%nat ++ s.

(** Modelled from the spec: [gs.broadcast_to(a, t)] of the backend, absent
    from src/. *)
Definition gs_broadcast_to (a : ndarray) (t : list nat) : res ndarray :=
  if decide (length (shape a) <= length t)%nat then
    let s := pad_shape (shape a) (length t) in
    if forallb axis_compatible (zip s t)
    then Ok (mk_ndarray t (broadcast_data s t (data a)))
    else Raise ValueError
  else Raise ValueError.

(** The common shape of two operands, computed from the last axis. *)
Fixpoint broadcast_shapes_rev (s1 s2 : list nat) : option (list nat) :=
  match s1, s2 with
  | [], _ => Some s2
  | _, [] => Some s1
  | a :: s1', b :: s2' =>
      match broadcast_shapes_rev s1' s2' with
      | Some r =>
          if decide (a = b) then Some (a :: r)
          else if decide (a = 1%nat) then Some (b :: r)
          else if decide (b = 1%nat) then Some (a :: r)
          else None
      | None => None
      end
  end.

Definition broadcast_shapes (s1 s2 : list nat) : option (list nat) :=
  match broadcast_shapes_rev (reverse s1) (reverse s2) with
  | Some r => Some (reverse r)
  | None => None
  end.

(** [a + b] on arrays. *)
Definition arr_add (a b : ndarray) : res ndarray :=
  match broadcast_shapes (shape a) (shape b) with
  | Some t =>
      let* a' := gs_broadcast_to a t in
      let* b' := gs_broadcast_to b t in
      Ok (mk_ndarray t (zip_with Qcplus (data a') (data b')))
  | None => Raise ValueError
  end.

(** [c * a] for a float [c]. *)
Definition arr_scale (c : Qc) (a : ndarray) : ndarray :=
  mk_ndarray (shape a) (map (Qcmult c) (data a)).

Definition zeros (s : list nat) : ndarray :=
  mk_ndarray s (replicate (size_of s) 0%Qc).

Definition zeros_like (a : ndarray) : ndarray := zeros (shape a).

(** [a[i]] for an integer [i], negative indices counting from the end. *)
Definition getitem (a : ndarray) (i : Z) : res ndarray :=
  match shape a with
  | [] => Raise IndexError
  | n :: s =>
      let j := if decide (i < 0) then i + Z.of_nat n else i in
      if decide (0 <= j < Z.of_nat n) then
        Ok (mk_ndarray s
              (take (size_of s) (drop (Z.to_nat j * size_of s) (data a))))
      else Raise IndexError
  end.

(** [a[:k]] for a non-negative [k]. *)
Definition slice_to (a : ndarray) (k : nat) : res ndarray :=
  match shape a with
  | [] => Raise IndexError
  | n :: s =>
      Ok (mk_ndarray (Nat.min k n :: s)
            (take (Nat.min k n * size_of s) (data a)))
  end.

(** [a[k:]] for a non-negative [k]. *)
Definition slice_from (a : ndarray) (k : nat) : res ndarray :=
  match shape a with
  | [] => Raise IndexError
  | n :: s =>
      Ok (mk_ndarray ((n - k)%nat :: s)
            (drop (Nat.min k n * size_of s) (data a)))
  end.

(** Modelled from the spec: [gs.moveaxis(a, 0, -1)] of the backend, absent
    from src/: the first axis becomes the last one. With [n]
    the length of the first axis and [m] the number of elements of one
    block, element [(i, j)] of the [n] by [m] view moves to [(j, i)]. *)
Definition gs_moveaxis_first_to_last (a : ndarray) : res ndarray :=
  match shape a with
  | [] => Raise ValueError
  | n :: s =>
      let m := size_of s in
      Ok (mk_ndarray (s ++ [n])
            (flat_map
               (fun j => map (fun i => nth (i * m + j) (data a) 0%Qc) (seq 0 n))
               (seq 0 m)))
  end.

(** Python's [x / n] for a float [x] and an int [n]. *)
Definition py_div (x : Qc) (n : Z) : res Qc :=
  if decide (n = 0) then Raise ZeroDivisionError
  else Ok (x / Qc_of_Z n)%Qc.

(** Modelled from the spec: [gs.linspace(start, stop, num)] of the backend,
    absent from src/: [num] evenly spaced samples, the last one being [stop]
    itself. *)
Definition gs_linspace (start stop : Qc) (num : Z) : res ndarray :=
  if decide (num < 0) then Raise ValueError
  else
    let n := Z.to_nat num in
    let div := (n - 1)%nat in
    let step := ((stop - start) / Qc_of_Z (Z.of_nat div))%Qc in
    let samples :=
      map (fun i => (start + Qc_of_Z (Z.of_nat i) * step)%Qc) (seq 0 n) in
    Ok (mk_ndarray [n]
          (if decide (1 < n)%nat then take div samples ++ [stop] else samples)).

(** ** Step functions of [geomstats.integrator] *)

(** A stepper: [(force, state, time, dt) -> state]. *)
Definition step_function : Type :=
  callable2 -> ndarray -> Qc -> Qc -> res ndarray.

(** Modelled from the spec: the step functions of [geomstats.integrator],
    absent from src/. The spec (4.1) gives Euler as
    [state' = state + dt * force(state, t)]. *)
Definition euler_step : step_function := fun force state time dt =>
  let* derivatives := force (PArr state) (PFloat time) in
  arr_add state (arr_scale dt derivatives).

(** One stage of an explicit Runge-Kutta rule: the node [c_i] and the
    coefficients [a_i1 .. a_i(i-1)] applied to the earlier slopes. *)
Record rk_stage : Type := mk_stage { node : Qc; coeffs : list Qc }.

Record tableau : Type := mk_tableau { stages : list rk_stage; weights : list Qc }.

(** [acc + c_1 * k_1 + c_2 * k_2 + ...]. *)
Fixpoint weighted_sum (cs : list Qc) (ks : list ndarray) (acc : ndarray)
  : res ndarray :=
  match cs, ks with
  | c :: cs', k :: ks' =>
      let* acc' := arr_add acc (arr_scale c k) in
      weighted_sum cs' ks' acc'
  | _, _ => Ok acc
  end.

(** The slopes [k_i = force(state + dt * sum_j a_ij k_j, time + c_i dt)]. *)
Fixpoint rk_slopes (force : callable2) (state : ndarray) (time dt : Qc)
    (sts : list rk_stage) (ks : list ndarray) : res (list ndarray) :=
  match sts with
  | [] => Ok ks
  | st :: sts' =>
      let* incr := weighted_sum (coeffs st) ks (zeros_like state) in
      let* y := arr_add state (arr_scale dt incr) in
      let* k := force (PArr y) (PFloat (time + node st * dt)%Qc) in
      rk_slopes force state time dt sts' (ks ++ [k])
  end.

(** Modelled from the spec: the higher-order steppers of
    [geomstats.integrator], absent from src/; the spec (4.1) describes them
    as Runge-Kutta variants that evaluate the vector field several times per
    step. An explicit rule with tableau [tab] advances the state by
    [dt * sum_i b_i k_i]. *)
Definition runge_kutta_step (tab : tableau) : step_function :=
  fun force state time dt =>
    let* ks := rk_slopes force state time dt (stages tab) [] in
    let* incr := weighted_sum (weights tab) ks (zeros_like state) in
    arr_add state (arr_scale dt incr).

(** The update rules the module can define. *)
Inductive stepper_rule : Type :=
  | EulerRule
  | RungeKuttaRule (tab : tableau).

Definition rule_function (r : stepper_rule) : step_function :=
  match r with
  | EulerRule => euler_step
  | RungeKuttaRule tab => runge_kutta_step tab
  end.

(** ** Dictionaries and results *)

(** [d[key]] for a key that is a name. *)
Definition dict_getitem {A : Type} (d : gmap string A) (key : string) : res A :=
  match d !! key with
  | Some v => Ok v
  | None => Raise KeyError
  end.

(** [d[key]] for a key that is a name or [None]: the tables of this module
    are keyed by stepper names, so [None] is not among their keys. *)
Definition dict_getitem_opt {A : Type} (d : gmap string A) (key : option string)
  : res A :=
  match key with
  | Some name => dict_getitem d name
  | None => Raise KeyError
  end.

(** [OdeResult] is a dict with attribute access ([scipy]'s [OptimizeResult]). *)
Abbreviation OdeResult := (gmap string pyval).

(** [result.name]. *)
Definition result_getattr (result : OdeResult) (name : string) : res pyval :=
  match result !! name with
  | Some v => Ok v
  | None => Raise AttributeError
  end.

(** The array a state or a result field holds. The solvers subscript these
    values and hand them to array functions, which raises [TypeError] on a
    number, a flag or [None]; a string is never a state or the [y] of a
    result. *)
Definition as_array (v : pyval) : res ndarray :=
  match v with
  | PArr a => Ok a
  | _ => Raise TypeError
  end.

(** ** class ODEIVPSolver *)

Record ODEIVPSolver : Type := mk_ODEIVPSolver {
  state_is_raveled : bool;
  tfirst : bool;
  save_result : bool;
  result_ : option OdeResult
}.

(** [ODEIVPSolver.__init__(save_result=False, state_is_raveled=False,
    tfirst=False)]; an omitted argument is [None]. *)
Definition ODEIVPSolver_init (save_result state_is_raveled tfirst : option bool)
  : ODEIVPSolver :=
  {| state_is_raveled := default false state_is_raveled;
     tfirst := default false tfirst;
     save_result := default false save_result;
     result_ := None |}.

Definition set_result_ (base : ODEIVPSolver) (result : OdeResult) : ODEIVPSolver :=
  {| state_is_raveled := state_is_raveled base;
     tfirst := tfirst base;
     save_result := save_result base;
     result_ := Some result |}.

(** ** class GSIntegrator *)

Record GSIntegrator : Type := mk_GSIntegrator {
  gs_base : ODEIVPSolver;
  _step_function : step_function;
  _step_type : option string;
  n_steps : Z
}.

(** What can be assigned to [step_type]: a callable or a name. *)
Inductive step_type_value : Type :=
  | StepCallable (f : step_function)
  | StepName (name : string).

(** ** class SCPSolveIVP *)

Record SCPSolveIVP : Type := mk_SCPSolveIVP {
  scp_base : ODEIVPSolver;
  method : string;
  options : gmap string pyval
}.

(** [SCPSolveIVP.__init__(method="RK45", save_result=False, **options)]. *)
Definition SCPSolveIVP_init (method : option string) (save_result : option bool)
    (options : gmap string pyval) : SCPSolveIVP :=
  {| scp_base := ODEIVPSolver_init (Some (default false save_result))
                   (Some true) (Some true);
     method := default "RK45" method;
     options := options |}.

(** What the solver uses of a metric: [dim] and [geodesic_equation(state,
    time)]. The metric classes are not under src/. *)
Record metric_obj : Type := mk_metric {
  dim : nat;
  geodesic_equation : callable2
}.

(** The identically-zero vector field: the derivative of every state is the
    zero array of that state's shape. *)
Definition zero_field : callable2 := fun state _ =>
  match state with
  | PArr a => Ok (zeros_like a)
  | _ => Raise TypeError
  end.

(** ** Sample collaborators

    Concrete tables, metrics and an external solver on which the statements
    below are run. *)

(** A registry with the explicit Euler rule and the midpoint rule. *)
Definition sample_STEP_FUNCTIONS : gmap string string :=
  {[ "euler" := "euler_step"; "rk2" := "rk2_step" ]}.

Definition sample_FEVALS_PER_STEP : gmap string Z :=
  {[ "euler" := 1; "rk2" := 2 ]}.

Definition midpoint_tableau : tableau :=
  {| stages := [ {| node := 0%Qc; coeffs := [] |};
                 {| node := (1 / Qc_of_Z 2)%Qc; coeffs := [(1 / Qc_of_Z 2)%Qc] |} ];
     weights := [0%Qc; 1%Qc] |}.

Definition sample_module : gmap string stepper_rule :=
  {[ "euler_step" := EulerRule; "rk2_step" := RungeKuttaRule midpoint_tableau ]}.

(** A stand-in for the external solver: one explicit Euler step over the
    whole interval, returned in the layout of [solve_ivp] (the components of
    the state along the first axis, time along the second). *)
Definition one_step_solve_ivp (f : Qc -> ndarray -> res ndarray)
    (t_span : Qc * Qc) (y0 : ndarray) (method : string)
    (options : gmap string pyval) : res (gmap string pyval) :=
  let* k := f t_span.1 y0 in
  let* y1 := arr_add y0 (arr_scale (t_span.2 - t_span.1)%Qc k) in
  let* rows := gs_stack [y0; y1] in
  let* y := gs_moveaxis_first_to_last rows in
  Ok (<["t" := PArr (mk_ndarray [2%nat] [t_span.1; t_span.2])]>
        (<["y" := PArr y]> (<["nfev" := PInt 1]> (<["njev" := PInt 0]>
           (<["status" := PInt 0]> (<["success" := PBool true]> ∅)))))).

(** The flat metric of the plane: geodesics are straight lines, the
    derivative of [position, velocity] is [velocity, 0]. *)
Definition flat_geodesic_equation : callable2 := fun state _ =>
  match state with
  | PArr a =>
      let* velocity := getitem a 1 in
      gs_stack [velocity; zeros_like velocity]
  | _ => Raise TypeError
  end.

Definition flat_metric : metric_obj :=
  {| dim := 2; geodesic_equation := flat_geodesic_equation |}.

(** An array of integers. *)
Definition int_array (s : list nat) (l : list Z) : ndarray :=
  mk_ndarray s (map Qc_of_Z l).

(** [GSIntegrator(n_steps=4)] and [GSIntegrator(n_steps=4, step_type="rk2")]
    over the sample registry. *)
Definition sample_integrator : GSIntegrator :=
  {| gs_base := ODEIVPSolver_init (Some false) (Some false) (Some false);
     _step_function := euler_step;
     _step_type := Some "euler";
     n_steps := 4 |}.

Definition sample_rk2_integrator : GSIntegrator :=
  {| gs_base := ODEIVPSolver_init (Some false) (Some false) (Some false);
     _step_function := runge_kutta_step midpoint_tableau;
     _step_type := Some "rk2";
     n_steps := 4 |}.

(** A custom stepper: it leaves the state where it is. *)
Definition idle_step : step_function := fun _ state _ _ => Ok state.

(** The constant vector field of value [[1, 2]]. *)
Definition constant_field : callable2 := fun _ _ => Ok (int_array [2%nat] [1; 2]).

(** [SCPSolveIVP()]. *)
Definition sample_adapter : SCPSolveIVP := SCPSolveIVP_init None None ∅.

(** The zero vector field in the time-first convention. *)
Definition zero_field_tfirst : callable2 := fun t state => zero_field state t.

(** [GSIntegrator(n_steps=4, save_result=True)] and
    [SCPSolveIVP(save_result=True)]. *)
Definition saving_integrator : GSIntegrator :=
  {| gs_base := ODEIVPSolver_init (Some true) (Some false) (Some false);
     _step_function := euler_step;
     _step_type := Some "euler";
     n_steps := 4 |}.

Definition saving_adapter : SCPSolveIVP := SCPSolveIVP_init None (Some true) ∅.

(** A registry that names a function the sample module does not define. *)
Definition dangling_STEP_FUNCTIONS : gmap string string :=
  {[ "euler" := "euler_step"; "leapfrog" := "leapfrog_step" ]}.

(** [GSIntegrator(n_steps=k)] over the sample registry. *)
Definition euler_integrator (k : Z) : GSIntegrator :=
  {| gs_base := ODEIVPSolver_init (Some false) (Some false) (Some false);
     _step_function := euler_step;
     _step_type := Some "euler";
     n_steps := k |}.


Section Solvers.

(** The module-level tables of [geomstats.integrator] and the functions the
    module defines; the tables and the module are not under src/, so they are
    parameters. [STEP_FUNCTIONS] maps a stepper name to the name of a
    function of the module, [FEVALS_PER_STEP] a stepper name to its
    evaluations per step. *)
Variable STEP_FUNCTIONS : gmap string string.
Variable FEVALS_PER_STEP : gmap string Z.
Variable integrator_module : gmap string stepper_rule.

(** Modelled from the spec: [check_parameter_accepted_values] of
    [geomstats.errors], absent from src/; the spec (4.1) says the
    configuration fails with [InvalidConfiguration] when the requested name
    is not in the registry. *)
Definition check_parameter_accepted_values {A : Type}
    (param : string) (param_name : string) (accepted_values : gmap string A)
  : res unit :=
  if decide (is_Some (accepted_values !! param)) then Ok tt
  else Raise InvalidConfiguration.

(** [getattr(gs_integrator, name)]. *)
Definition module_getattr (name : string) : res step_function :=
  match integrator_module !! name with
  | Some r => Ok (rule_function r)
  | None => Raise AttributeError
  end.

(** The body of the [step_type] setter: the pair it stores in
    [_step_function] and [_step_type]. *)
Definition step_type_setter_values (value : step_type_value)
  : res (step_function * option string) :=
  match value with
  | StepCallable f => Ok (f, None)
  | StepName name =>
      let* _ := check_parameter_accepted_values name "step_type" STEP_FUNCTIONS in
      let* fname := dict_getitem STEP_FUNCTIONS name in
      let* step_function := module_getattr fname in
      Ok (step_function, Some name)
  end.

(** [self.step_type = value]. *)
Definition set_step_type (self : GSIntegrator) (value : step_type_value)
  : res GSIntegrator :=
  let* (step_function, value) := step_type_setter_values value in
  Ok {| gs_base := gs_base self;
        _step_function := step_function;
        _step_type := value;
        n_steps := n_steps self |}.

(** The [step_type] getter. *)
Definition step_type (self : GSIntegrator) : option string := _step_type self.

(** [GSIntegrator.__init__(n_steps=10, step_type="euler", save_result=False)]. *)
Definition GSIntegrator_init (n_steps : option Z)
    (step_type : option step_type_value) (save_result : option bool)
  : res GSIntegrator :=
  let base := ODEIVPSolver_init (Some (default false save_result))
                (Some false) (Some false) in
  let* (step_function, value) :=
    step_type_setter_values (default (StepName "euler") step_type) in
  Ok {| gs_base := base;
        _step_function := step_function;
        _step_type := value;
        n_steps := default 10 n_steps |}.

Definition step (self : GSIntegrator) (force : callable2) (state : ndarray)
    (time dt : Qc) : res ndarray :=
  _step_function self force state time dt.

Definition _get_n_fevals (self : GSIntegrator) (n_steps : Z) : res Z :=
  let* n_evals_step := dict_getitem_opt FEVALS_PER_STEP (step_type self) in
  Ok (n_evals_step * n_steps).

(** The [for i in range(self.n_steps)] loop over the indices [idx]. *)
Fixpoint integrate_loop (self : GSIntegrator) (force : callable2) (dt : Qc)
    (idx : list nat) (current_state : ndarray) (states : list ndarray)
  : res (list ndarray) :=
  match idx with
  | [] => Ok states
  | i :: idx' =>
      let* current_state :=
        step self force current_state (Qc_of_Z (Z.of_nat i) * dt)%Qc dt in
      integrate_loop self force dt idx' current_state (states ++ [current_state])
  end.

(** [range(n)]. *)
Definition py_range (n : Z) : list nat := seq 0 (Z.to_nat n).

Definition default_end_time : Qc := 1%Qc.

(** [GSIntegrator.integrate(force, initial_state, end_time=1.0)]: the result
    and the integrator after the call. *)
Definition GSIntegrator_integrate (self : GSIntegrator) (force : callable2)
    (initial_state : ndarray) (end_time : Qc)
  : res (OdeResult * GSIntegrator) :=
  let* dt := py_div end_time (n_steps self) in
  let* states :=
    integrate_loop self force dt (py_range (n_steps self))
      initial_state [initial_state] in
  let* ts := gs_linspace 0%Qc end_time (n_steps self + 1) in
  let* nfev := _get_n_fevals self (n_steps self) in
  let* y := gs_array states in
  let result : OdeResult :=
    <["t" := PArr ts]> (<["y" := PArr y]> (<["nfev" := PInt nfev]>
      (<["njev" := PInt 0]> (<["sucess" := PBool true]> ∅)))) in
  if save_result (gs_base self)
  then Ok (result,
           {| gs_base := set_result_ (gs_base self) result;
              _step_function := _step_function self;
              _step_type := _step_type self;
              n_steps := n_steps self |})
  else Ok (result, self).

(** ** The adaptive adapter

    [scipy.integrate.solve_ivp(fun, t_span, y0, method, **options)], an
    external library: it calls [fun(t, y)] and returns an [OptimizeResult]
    or raises. *)
Variable solve_ivp :
  (Qc -> ndarray -> res ndarray) -> Qc * Qc -> ndarray -> string ->
  gmap string pyval -> res OdeResult.

(** [gs.__name__], the name of the active backend module. *)
Variable gs_name : string.

Definition endswith (s suffix : string) : bool :=
  bool_decide
    (String.substring (String.length s - String.length suffix)
       (String.length suffix) s = suffix
     /\ (String.length suffix <= String.length s)%nat).

(** Conversion of one field to the backend's array type: an array keeps its
    shape and elements, other values are left alone. *)
Definition to_backend_value (value : pyval) : pyval :=
  match value with
  | PArr a => PArr a
  | _ => value
  end.

Definition _ode_result_to_backend_type (ode_result : OdeResult) : OdeResult :=
  if endswith gs_name "numpy" then ode_result
  else to_backend_value <$> ode_result.

(** [SCPSolveIVP.integrate(force, initial_state, end_time=1.0)]. *)
Definition SCPSolveIVP_integrate (self : SCPSolveIVP) (force : callable2)
    (initial_state : ndarray) (end_time : Qc)
  : res (OdeResult * SCPSolveIVP) :=
  let raveled_initial_state := gs_flatten initial_state in
  let force_ := fun (t : Qc) (state : ndarray) => force (PFloat t) (PArr state) in
  let* result :=
    solve_ivp force_ (0%Qc, end_time) raveled_initial_state
      (method self) (options self) in
  let result := _ode_result_to_backend_type result in
  let* y := result_getattr result "y" in
  let* y := as_array y in
  let* y := gs_moveaxis_first_to_last y in
  let result : OdeResult := <["y" := PArr y]> result in
  if save_result (scp_base self)
  then Ok (result,
           {| scp_base := set_result_ (scp_base self) result;
              method := method self;
              options := options self |})
  else Ok (result, self).

(** ** class ExpODESolver *)

(** The integrators an exponential-map solver can wrap. *)
Inductive integrator_obj : Type :=
  | FixedStep (i : GSIntegrator)
  | Adaptive (i : SCPSolveIVP).

Definition base_of (i : integrator_obj) : ODEIVPSolver :=
  match i with
  | FixedStep g => gs_base g
  | Adaptive s => scp_base s
  end.

(** [integrator.integrate(force, initial_state, end_time)], dispatched on the
    class of the integrator. *)
Definition integrate (i : integrator_obj) (force : callable2)
    (initial_state : ndarray) (end_time : Qc)
  : res (OdeResult * integrator_obj) :=
  match i with
  | FixedStep g =>
      let* (result, g') := GSIntegrator_integrate g force initial_state end_time in
      Ok (result, FixedStep g')
  | Adaptive s =>
      let* (result, s') := SCPSolveIVP_integrate s force initial_state end_time in
      Ok (result, Adaptive s')
  end.

Record ExpODESolver : Type := mk_ExpODESolver { integrator : integrator_obj }.

(** [ExpODESolver.__init__(integrator=None)]. *)
Definition ExpODESolver_init (integrator : option integrator_obj)
  : res ExpODESolver :=
  match integrator with
  | None =>
      let* g := GSIntegrator_init None None None in
      Ok {| integrator := FixedStep g |}
  | Some i => Ok {| integrator := i |}
  end.

Definition _force_raveled_state (raveled_initial_state : pyval) (t : pyval)
    (metric : metric_obj) : res ndarray :=
  let* raveled := as_array raveled_initial_state in
  let* position := slice_to raveled (dim metric) in
  let* velocity := slice_from raveled (dim metric) in
  let* state := gs_stack [position; velocity] in
  let* eq := geodesic_equation metric (PArr state) t in
  Ok (gs_flatten eq).

Definition _force_unraveled_state (initial_state : pyval) (t : pyval)
    (metric : metric_obj) : res ndarray :=
  geodesic_equation metric initial_state t.

Definition _get_force (self : ExpODESolver) (metric : metric_obj) : callable2 :=
  let force_ : callable2 :=
    if state_is_raveled (base_of (integrator self))
    then fun state t => _force_raveled_state state t metric
    else fun state t => _force_unraveled_state state t metric in
  if tfirst (base_of (integrator self))
  then fun t state => force_ state t
  else force_.

Definition _simplify_result (self : ExpODESolver) (result : OdeResult)
    (metric : metric_obj) : res ndarray :=
  let* y := result_getattr result "y" in
  let* y := as_array y in
  let* y := getitem y (-1) in
  if state_is_raveled (base_of (integrator self))
  then slice_to y (dim metric)
  else getitem y 0.

(** [ExpODESolver.solve(metric, tangent_vec, base_point)]: the point and the
    solver after the call (its integrator may have cached the result). *)
Definition solve (self : ExpODESolver) (metric : metric_obj)
    (tangent_vec base_point : ndarray) : res (ndarray * ExpODESolver) :=
  let* base_point := gs_broadcast_to base_point (shape tangent_vec) in
  let* initial_state := gs_stack [base_point; tangent_vec] in
  let force := _get_force self metric in
  let* (result, integrator') :=
    integrate (integrator self) force initial_state default_end_time in
  let self' := {| integrator := integrator' |} in
  let* point := _simplify_result self' result metric in
  Ok (point, self').



(** ** Vocabulary of the statements *)

(** The stepper, applied to [force], maps a well-formed state of shape [s]
    to a well-formed state of shape [s]: the vector field is defined
    wherever the stepper evaluates it. *)
Definition shape_preserving (stepf : step_function) (force : callable2)
    (s : list nat) : Prop :=
  forall st t dt, shape st = s -> well_formed st ->
    exists st', stepf force st t dt = Ok st' /\ shape st' = s /\ well_formed st'.

Definition uniform (s : list nat) (a : ndarray) : Prop :=
  shape a = s /\ well_formed a.

(** The arrays of [l], each of shape [s], along a new outermost axis. *)
Definition stacked (l : list ndarray) (s : list nat) : ndarray :=
  mk_ndarray (length l :: s) (concat (map data l)).

(** [force] vanishes at the state [s], at every time. *)
Definition vanishes_at (force : callable2) (s : ndarray) : Prop :=
  forall t, force (PArr s) (PFloat t) = Ok (zeros_like s).

(** Element [(i, j)] of an array read as a matrix whose rows are the blocks
    along the first axis. *)
Definition entry2 (a : ndarray) (i j : nat) : Qc :=
  nth (i * size_of (tail (shape a)) + j) (data a) 0%Qc.

(** The time axis of the state array of a result is its last axis: the last
    axis is as long as the time sequence. *)
Definition time_axis_is_last (result : OdeResult) : Prop :=
  exists t y,
    result !! "t" = Some (PArr t) /\ result !! "y" = Some (PArr y)
    /\ last (shape y) = Some (length (data t)).


(** Blocks [i] and [k + i] of [d], the blocks having [m] elements: in a
    batched state of [k] points, the position and the velocity of point [i]. *)
Definition gather (m k i : nat) (d : list Qc) : list Qc :=
  take m (drop (i * m) d) ++ take m (drop ((k + i) * m) d).

(** The state [position[i], velocity[i]] of point [i] in a batched state of
    shape [(2, k, ...)]. *)
Definition batch_item (i : nat) (a : ndarray) : ndarray :=
  match shape a with
  | _ :: k :: s => mk_ndarray (2%nat :: s) (gather (size_of s) k i (data a))
  | _ => a
  end.

(** The vector field [force] acts point by point on a batch of [k] states
    of point shape [s]: it is defined on the batch, and item [i] of its value
    is its value on item [i]. *)
Definition vectorised (force : callable2) (k : nat) (s : list nat) : Prop :=
  forall (B : ndarray) (t : pyval), uniform (2%nat :: k :: s) B ->
    exists D,
      force (PArr B) t = Ok D
      /\ uniform (2%nat :: k :: s) D
      /\ (forall i, (i < k)%nat ->
            force (PArr (batch_item i B)) t = Ok (batch_item i D)).

(** Solving for a batch of [k] tangent vectors at one base point returns [k]
    points, the [i]-th being the point returned for the [i]-th tangent
    vector alone. *)
Definition batch_consistent
    (solve_fn : ndarray -> ndarray -> res (ndarray * ExpODESolver))
    (tangent_vecs base_point : ndarray) (k : nat) : Prop :=
  exists points self',
    solve_fn tangent_vecs base_point = Ok (points, self')
    /\ shape points = k :: shape base_point
    /\ (forall i tangent_vec, (i < k)%nat ->
          getitem tangent_vecs (Z.of_nat i) = Ok tangent_vec ->
          exists point self'',
            solve_fn tangent_vec base_point = Ok (point, self'')
            /\ getitem points (Z.of_nat i) = Ok point).


(** The fixed-step integrators a program can hold after
    [GSIntegrator(n_steps=n, ..., save_result=sv)]: the constructed object,
    and what calls to [integrate] and assignments to [step_type] make of it. *)
Inductive GS_reachable (n : option Z) (sv : option bool) : GSIntegrator -> Prop :=
  | GS_constructed (st : option step_type_value) (g : GSIntegrator) :
      GSIntegrator_init n st sv = Ok g -> GS_reachable n sv g
  | GS_integrated (g g' : GSIntegrator) (force : callable2)
      (initial_state : ndarray) (end_time : Qc) (result : OdeResult) :
      GS_reachable n sv g ->
      GSIntegrator_integrate g force initial_state end_time = Ok (result, g') ->
      GS_reachable n sv g'
  | GS_assigned (g g' : GSIntegrator) (value : step_type_value) :
      GS_reachable n sv g ->
      set_step_type g value = Ok g' ->
      GS_reachable n sv g'.

(** The adapters a program can hold after
    [SCPSolveIVP(method=m, save_result=sv, **opts)]. *)
Inductive SCP_reachable (m : option string) (sv : option bool)
    (opts : gmap string pyval) : SCPSolveIVP -> Prop :=
  | SCP_constructed : SCP_reachable m sv opts (SCPSolveIVP_init m sv opts)
  | SCP_integrated (s s' : SCPSolveIVP) (force : callable2)
      (initial_state : ndarray) (end_time : Qc) (result : OdeResult) :
      SCP_reachable m sv opts s ->
      SCPSolveIVP_integrate s force initial_state end_time = Ok (result, s') ->
      SCP_reachable m sv opts s'.
(** ** Facts about arrays *)

Lemma bind_ok {A B : Type} (m : res A) (k : A -> res B) (b : B) :
  bind m k = Ok b -> exists a, m = Ok a /\ k a = Ok b.
Proof. destruct m as [a|e]; simpl; [eauto | discriminate]. Qed.

Lemma ndarray_eq (a b : ndarray) :
  shape a = shape b -> data a = data b -> a = b.
Proof. destruct a, b; simpl; intros -> ->; reflexivity. Qed.

Lemma size_of_cons (n : nat) (s : list nat) :
  size_of (n :: s) = (n * size_of s)%nat.
Proof. reflexivity. Qed.

Lemma chunks_length (n m : nat) (d : list Qc) :
  length (chunks n m d) = n.
Proof. revert d; induction n as [|n IH]; intros d; simpl; [|rewrite IH]; done. Qed.

Lemma chunks_concat (n m : nat) (d : list Qc) :
  length d = (n * m)%nat -> concat (chunks n m d) = d.
Proof.
  revert d; induction n as [|n IH]; intros d Hd; simpl in *.
  - by destruct d.
  - rewrite IH; [apply take_drop|]. rewrite length_drop. lia.
Qed.

Lemma chunks_sized (n m : nat) (d : list Qc) :
  length d = (n * m)%nat -> Forall (fun c => length c = m) (chunks n m d).
Proof.
  revert d; induction n as [|n IH]; intros d Hd; simpl in *; constructor.
  - rewrite length_take. lia.
  - apply IH. rewrite length_drop. lia.
Qed.

Lemma broadcast_data_same (s : list nat) (d : list Qc) :
  length d = size_of s -> broadcast_data s s d = d.
Proof.
  revert d; induction s as [|n s IH]; intros d Hd; simpl; [done|].
  rewrite decide_True by done.
  rewrite size_of_cons in Hd.
  rewrite <- (chunks_concat n (size_of s) d) at 2 by done.
  f_equal. rewrite <- (map_id (chunks n (size_of s) d)) at 2.
  apply map_ext_Forall.
  eapply Forall_impl; [apply chunks_sized; done|]. intros c Hc. by apply IH.
Qed.

Lemma pad_shape_same (s : list nat) : pad_shape s (length s) = s.
Proof. unfold pad_shape. by rewrite Nat.sub_diag. Qed.

Lemma axis_compatible_same (s : list nat) :
  forallb axis_compatible (zip s s) = true.
Proof.
  induction s as [|n s IH]; simpl; [done|].
  rewrite IH. unfold axis_compatible; simpl. by rewrite bool_decide_true.
Qed.

Lemma gs_broadcast_to_same (a : ndarray) :
  well_formed a -> gs_broadcast_to a (shape a) = Ok a.
Proof.
  intros Hwf. unfold gs_broadcast_to.
  rewrite decide_True by done.
  rewrite pad_shape_same, axis_compatible_same, broadcast_data_same by done.
  by destruct a.
Qed.

Lemma broadcast_shapes_rev_same (s : list nat) :
  broadcast_shapes_rev s s = Some s.
Proof.
  induction s as [|n s IH]; simpl; [done|].
  rewrite IH. by rewrite decide_True.
Qed.

Lemma broadcast_shapes_same (s : list nat) : broadcast_shapes s s = Some s.
Proof.
  unfold broadcast_shapes. rewrite broadcast_shapes_rev_same.
  by rewrite reverse_involutive.
Qed.

Lemma arr_add_same_shape (a b : ndarray) :
  shape b = shape a -> well_formed a -> well_formed b ->
  arr_add a b = Ok (mk_ndarray (shape a) (zip_with Qcplus (data a) (data b))).
Proof.
  intros Hs Ha Hb. unfold arr_add. rewrite Hs, broadcast_shapes_same.
  rewrite (gs_broadcast_to_same a) by done. simpl.
  rewrite <- Hs, (gs_broadcast_to_same b) by done. done.
Qed.

Lemma zeros_well_formed (s : list nat) : well_formed (zeros s).
Proof. unfold well_formed, zeros; simpl. by rewrite length_replicate. Qed.

Lemma arr_scale_well_formed (c : Qc) (a : ndarray) :
  well_formed a -> well_formed (arr_scale c a).
Proof. unfold well_formed, arr_scale; simpl. by rewrite length_map. Qed.

Lemma arr_scale_zeros (c : Qc) (s : list nat) : arr_scale c (zeros s) = zeros s.
Proof.
  unfold arr_scale, zeros; simpl. f_equal.
  induction (size_of s) as [|n IH]; simpl; [done|].
  rewrite IH. f_equal. ring.
Qed.

Lemma zip_with_plus_zeros (d : list Qc) :
  zip_with Qcplus d (replicate (length d) 0%Qc) = d.
Proof.
  induction d as [|x d IH]; simpl; [done|]. rewrite IH. f_equal. ring.
Qed.

Lemma arr_add_zeros (a : ndarray) :
  well_formed a -> arr_add a (zeros (shape a)) = Ok a.
Proof.
  intros Hwf. rewrite arr_add_same_shape; [|done|done|apply zeros_well_formed].
  f_equal. apply ndarray_eq; simpl; [done|].
  rewrite <- Hwf. apply zip_with_plus_zeros.
Qed.

Lemma size_of_nil_mul (n : nat) : (n * size_of [])%nat = n.
Proof. unfold size_of; simpl. lia. Qed.

(** ** Stacking and indexing *)

Lemma forallb_same_shape (a : ndarray) (l : list ndarray) :
  Forall (uniform (shape a)) l -> forallb (same_shape_as a) l = true.
Proof.
  induction 1 as [|b l [Hb _] _ IH]; simpl; [done|].
  rewrite IH. unfold same_shape_as. by rewrite bool_decide_true.
Qed.

Lemma gs_array_uniform (s : list nat) (l : list ndarray) :
  l <> [] -> Forall (uniform s) l -> gs_array l = Ok (stacked l s).
Proof.
  intros Hne Hl. destruct l as [|a l]; [done|].
  assert (shape a = s) as <- by (by inversion Hl as [|? ? [? ?]]).
  unfold gs_array. by rewrite forallb_same_shape.
Qed.

Lemma concat_data_length (s : list nat) (l : list ndarray) :
  Forall (uniform s) l ->
  length (concat (map data l)) = (length l * size_of s)%nat.
Proof.
  induction 1 as [|a l [Hs Hwf] _ IH]; simpl; [done|].
  rewrite length_app, IH, Hwf, Hs. done.
Qed.

Lemma stacked_well_formed (s : list nat) (l : list ndarray) :
  Forall (uniform s) l -> well_formed (stacked l s).
Proof. intros Hl. unfold well_formed; simpl. by apply concat_data_length. Qed.

Lemma concat_data_block (s : list nat) (l : list ndarray) (i : nat) (a : ndarray) :
  Forall (uniform s) l -> l !! i = Some a ->
  take (size_of s) (drop (i * size_of s) (concat (map data l))) = data a.
Proof.
  intros Hl. revert i. induction Hl as [|b l [Hs Hwf] _ IH]; intros i Hi; [done|].
  destruct i as [|i]; simpl in *.
  - injection Hi as ->. rewrite drop_0, take_app_length'; [done|]. by rewrite Hwf, Hs.
  - rewrite drop_app_ge by (rewrite Hwf, Hs; nia).
    rewrite Hwf, Hs. replace (size_of s + i * size_of s - size_of s)%nat
      with (i * size_of s)%nat by lia. by apply IH.
Qed.

Lemma getitem_stacked (s : list nat) (l : list ndarray) (i : nat) (a : ndarray) :
  Forall (uniform s) l -> l !! i = Some a ->
  getitem (stacked l s) (Z.of_nat i) = Ok a.
Proof.
  intros Hl Hi. unfold getitem; simpl.
  pose proof (lookup_lt_Some _ _ _ Hi) as Hlt.
  destruct (decide (Z.of_nat i < 0)) as [?|_]; [lia|].
  rewrite decide_True by lia.
  rewrite Nat2Z.id. rewrite (concat_data_block s l i a) by done.
  f_equal. apply ndarray_eq; simpl; [|done].
  symmetry. eapply (Forall_lookup_1 _ _ _ _ Hl Hi).
Qed.

Lemma getitem_stacked_last (s : list nat) (l : list ndarray) (a : ndarray) :
  Forall (uniform s) l -> last l = Some a ->
  getitem (stacked l s) (-1) = Ok a.
Proof.
  intros Hl Ha. rewrite last_lookup in Ha.
  pose proof (lookup_lt_Some _ _ _ Ha) as Hlt.
  rewrite <- (getitem_stacked s l (pred (length l)) a) by done.
  unfold getitem; simpl.
  destruct (decide (-1 < 0)) as [_|?]; [|lia].
  destruct (decide (Z.of_nat (pred (length l)) < 0)) as [?|_]; [lia|].
  rewrite !decide_True by lia. do 4 f_equal. lia.
Qed.

(** ** The time grid *)

Lemma Qc_of_Z_nonzero (z : Z) : z <> 0 -> Qc_of_Z z <> 0%Qc.
Proof. intros Hz H. apply Hz. apply Z2Qc_inj. by rewrite Z2Qc_inj_0. Qed.

Lemma py_div_nonzero (x : Qc) (n : Z) :
  n <> 0 -> py_div x n = Ok (x / Qc_of_Z n)%Qc.
Proof. intros Hn. unfold py_div. by rewrite decide_False. Qed.

Lemma gs_linspace_spec (T : Qc) (ns : Z) :
  0 < ns ->
  exists ts,
    gs_linspace 0%Qc T (ns + 1) = Ok ts
    /\ shape ts = [Z.to_nat (ns + 1)]
    /\ length (data ts) = Z.to_nat (ns + 1)
    /\ (forall i : nat, Z.of_nat i <= ns ->
          data ts !! i = Some (Qc_of_Z (Z.of_nat i) * (T / Qc_of_Z ns))%Qc).
Proof.
  intros Hns. unfold gs_linspace. rewrite decide_False by lia.
  eexists. split; [reflexivity|]. simpl.
  replace (Z.to_nat (ns + 1)) with (S (Z.to_nat ns)) by lia.
  set (n := Z.to_nat ns).
  replace (S n - 1)%nat with n by lia.
  replace (Z.of_nat n) with ns by lia.
  rewrite decide_True by lia.
  assert (length (take n (map (fun i : nat =>
            (0 + Qc_of_Z (Z.of_nat i) * ((T - 0) / Qc_of_Z ns))%Qc) (seq 0 (S n)))) = n)
    as Hlen.
  { rewrite length_take, length_map, length_seq. lia. }
  split; [done|]. split.
  { rewrite length_app, Hlen. simpl. lia. }
  intros i Hi. destruct (decide (i < n)%nat) as [Hlt|Hge].
  - rewrite lookup_app_l by lia. rewrite lookup_take_lt by done.
    change (map ?f ?l) with (f <$> l).
    rewrite list_lookup_fmap, lookup_seq_lt by lia. simpl.
    f_equal. unfold Qcdiv. ring.
  - assert (i = n) as -> by lia.
    rewrite lookup_app_r by lia. rewrite Hlen, Nat.sub_diag. simpl.
    f_equal. replace (Z.of_nat n) with ns by lia.
    field. apply Qc_of_Z_nonzero. lia.
Qed.

(** ** The stepping loop *)

Lemma integrate_loop_uniform (self : GSIntegrator) (force : callable2) (dt : Qc)
    (s : list nat) (idx : list nat) (current_state : ndarray)
    (states : list ndarray) :
  shape_preserving (_step_function self) force s ->
  uniform s current_state ->
  Forall (uniform s) states ->
  exists new,
    integrate_loop self force dt idx current_state states = Ok (states ++ new)
    /\ length new = length idx
    /\ Forall (uniform s) new.
Proof.
  intros Hstep. revert current_state states.
  induction idx as [|i idx IH]; intros cur states [Hs Hwf] Hstates; simpl.
  - exists []. by rewrite app_nil_r.
  - destruct (Hstep cur (Qc_of_Z (Z.of_nat i) * dt)%Qc dt Hs Hwf)
      as (st' & Hst' & Hs' & Hwf').
    unfold step. rewrite Hst'. simpl.
    destruct (IH st' (states ++ [st'])) as (new & Hloop & Hlen & Hnew).
    { done. }
    { apply Forall_app. split; [done|]. by constructor. }
    exists (st' :: new). rewrite Hloop, <- app_assoc. simpl.
    split; [done|]. split; [by rewrite Hlen|]. by constructor.
Qed.

(** C4. With a positive [n_steps], a registered stepper and a vector field
    defined wherever the stepper evaluates it, [integrate] returns a result
    whose time sequence has [n_steps + 1] points, the [i]-th being
    [i * (end_time / n_steps)] (so the first is 0 and the last is
    [end_time]), and whose state array has [n_steps + 1] entries along its
    outermost axis, the first one being the initial state. *)
Theorem integrate_time_grid_and_states (self : GSIntegrator) (force : callable2)
    (initial_state : ndarray) (end_time : Qc) (name : string) (c : Z) :
  0 < n_steps self ->
  step_type self = Some name ->
  FEVALS_PER_STEP !! name = Some c ->
  well_formed initial_state ->
  shape_preserving (_step_function self) force (shape initial_state) ->
  exists result self' ts y,
    GSIntegrator_integrate self force initial_state end_time = Ok (result, self')
    /\ result !! "t" = Some (PArr ts)
    /\ result !! "y" = Some (PArr y)
    /\ shape ts = [Z.to_nat (n_steps self + 1)]
    /\ length (data ts) = Z.to_nat (n_steps self + 1)
    /\ (forall i : nat, Z.of_nat i <= n_steps self ->
          data ts !! i
          = Some (Qc_of_Z (Z.of_nat i) * (end_time / Qc_of_Z (n_steps self)))%Qc)
    /\ data ts !! 0%nat = Some 0%Qc
    /\ last (data ts) = Some end_time
    /\ shape y = Z.to_nat (n_steps self + 1) :: shape initial_state
    /\ well_formed y
    /\ getitem y 0 = Ok initial_state.
Proof.
  intros Hpos Hty Hcost Hwf Hstep.
  destruct (integrate_loop_uniform self force (end_time / Qc_of_Z (n_steps self))%Qc
              (shape initial_state) (py_range (n_steps self))
              initial_state [initial_state] Hstep)
    as (new & Hloop & Hlen & Hnew).
  { done. }
  { by constructor. }
  destruct (gs_linspace_spec end_time (n_steps self) Hpos)
    as (ts & Hts & Hshape & Htslen & Hgrid).
  assert (Forall (uniform (shape initial_state)) ([initial_state] ++ new)) as Hall.
  { apply Forall_app. split; [by constructor|done]. }
  unfold GSIntegrator_integrate.
  rewrite py_div_nonzero by lia. cbn [bind]. rewrite Hloop. cbn [bind].
  rewrite Hts. cbn [bind].
  unfold _get_n_fevals. rewrite Hty. cbn [bind dict_getitem_opt]. unfold dict_getitem.
  rewrite Hcost. cbn [bind].
  rewrite (gs_array_uniform (shape initial_state)) by done. cbn [bind app].
  set (y := stacked (initial_state :: new) (shape initial_state)).
  assert (length (initial_state :: new) = Z.to_nat (n_steps self + 1)) as Hcount.
  { simpl. rewrite Hlen. unfold py_range. rewrite length_seq. lia. }
  assert (exists r s',
    (if save_result (gs_base self)
     then Ok (<["t":=PArr ts]> (<["y":=PArr y]> (<["nfev":=PInt (c * n_steps self)]>
                (<["njev":=PInt 0]> (<["sucess":=PBool true]> (∅ : OdeResult))))),
              {| gs_base := set_result_ (gs_base self)
                   (<["t":=PArr ts]> (<["y":=PArr y]> (<["nfev":=PInt (c * n_steps self)]>
                      (<["njev":=PInt 0]> (<["sucess":=PBool true]> ∅)))));
                 _step_function := _step_function self;
                 _step_type := _step_type self;
                 n_steps := n_steps self |})
     else Ok (<["t":=PArr ts]> (<["y":=PArr y]> (<["nfev":=PInt (c * n_steps self)]>
                (<["njev":=PInt 0]> (<["sucess":=PBool true]> ∅)))), self))
    = Ok (r, s')
    /\ r !! "t" = Some (PArr ts) /\ r !! "y" = Some (PArr y)) as (r & s' & Hr & Ht & Hy).
  { destruct (save_result (gs_base self)); do 2 eexists;
      (split; [reflexivity|]); by simplify_map_eq. }
  exists r, s', ts, y. split; [exact Hr|].
  do 5 (split; [done|]). split.
  { rewrite (Hgrid 0%nat) by lia. f_equal.
    change (Z.of_nat 0) with 0. rewrite Z2Qc_inj_0. ring. }
  split.
  { rewrite last_lookup, Htslen.
    rewrite (Hgrid (pred (Z.to_nat (n_steps self + 1)))) by lia.
    f_equal. replace (Z.of_nat (pred (Z.to_nat (n_steps self + 1))))
      with (n_steps self) by lia.
    field. apply Qc_of_Z_nonzero. lia. }
  split; [by (unfold y; simpl; rewrite Hlen; unfold py_range; rewrite length_seq;
              f_equal; lia)|].
  split; [by apply stacked_well_formed|].
  by apply (getitem_stacked (shape initial_state) (initial_state :: new) 0).
Qed.

(** ** The fixed-step integrator *)

Ltac bind_inv H :=
  let a := fresh "a" in
  let Ha := fresh "H" a in
  apply bind_ok in H; destruct H as (a & Ha & H).

(** The trace of a call to [integrate] that returns. *)
Lemma GSIntegrator_integrate_ok (self self' : GSIntegrator) (force : callable2)
    (initial_state : ndarray) (end_time : Qc) (result : OdeResult) :
  GSIntegrator_integrate self force initial_state end_time = Ok (result, self') ->
  exists dt states ts nfev y,
    py_div end_time (n_steps self) = Ok dt
    /\ integrate_loop self force dt (py_range (n_steps self))
         initial_state [initial_state] = Ok states
    /\ gs_linspace 0%Qc end_time (n_steps self + 1) = Ok ts
    /\ _get_n_fevals self (n_steps self) = Ok nfev
    /\ gs_array states = Ok y
    /\ result = <["t" := PArr ts]> (<["y" := PArr y]> (<["nfev" := PInt nfev]>
         (<["njev" := PInt 0]> (<["sucess" := PBool true]> ∅))))
    /\ self' = (if save_result (gs_base self)
                then {| gs_base := set_result_ (gs_base self) result;
                        _step_function := _step_function self;
                        _step_type := _step_type self;
                        n_steps := n_steps self |}
                else self).
Proof.
  unfold GSIntegrator_integrate. intros H.
  bind_inv H. bind_inv H. bind_inv H. bind_inv H. bind_inv H.
  exists a, a0, a1, a2, a3. repeat (split; [done|]).
  destruct (save_result (gs_base self)); injection H as <- <-; done.
Qed.

Lemma _get_n_fevals_custom (self : GSIntegrator) (n : Z) :
  _step_type self = None -> _get_n_fevals self n = Raise KeyError.
Proof. unfold _get_n_fevals, step_type. by intros ->. Qed.

(** C2. A custom callable is accepted as stepper and stored with
    [step_type = None]; every later call to [integrate] then raises instead
    of returning a result with an evaluation count of zero: the count is
    looked up in [FEVALS_PER_STEP] under the key [None]. *)
Theorem custom_stepper_integrate_raises (f : step_function) (n : option Z)
    (sv : option bool) (force : callable2) (initial_state : ndarray)
    (end_time : Qc) :
  exists g,
    GSIntegrator_init n (Some (StepCallable f)) sv = Ok g
    /\ step_type g = None
    /\ exists e, GSIntegrator_integrate g force initial_state end_time = Raise e.
Proof.
  eexists. split; [reflexivity|]. split; [reflexivity|].
  match goal with |- exists e, ?call = _ => destruct call as [[r g']|e] eqn:Hcall end;
    [|by eexists].
  apply GSIntegrator_integrate_ok in Hcall.
  destruct Hcall as (dt & states & ts & nfev & y & _ & _ & _ & Hn & _).
  rewrite _get_n_fevals_custom in Hn by done. discriminate.
Qed.

(** With a custom stepper whose steps all succeed, the exception is the
    [KeyError] of [_get_n_fevals]. *)
Lemma custom_stepper_KeyError (self : GSIntegrator) (force : callable2)
    (initial_state : ndarray) (end_time : Qc) (dt : Qc) :
  _step_type self = None ->
  0 < n_steps self ->
  py_div end_time (n_steps self) = Ok dt ->
  returns (integrate_loop self force dt (py_range (n_steps self))
             initial_state [initial_state]) ->
  GSIntegrator_integrate self force initial_state end_time = Raise KeyError.
Proof.
  intros Hty Hpos Hdt [states Hloop]. unfold GSIntegrator_integrate.
  rewrite Hdt; simpl. rewrite Hloop; simpl.
  unfold gs_linspace. rewrite decide_False by lia. simpl.
  by rewrite _get_n_fevals_custom.
Qed.

(** C5. A result returned by the fixed-step [integrate] has [njev = 0], but
    the flag it carries is stored under the key [sucess]: the result has no
    [success] entry. *)
Theorem fixed_step_result_flags (self self' : GSIntegrator) (force : callable2)
    (initial_state : ndarray) (end_time : Qc) (result : OdeResult) :
  GSIntegrator_integrate self force initial_state end_time = Ok (result, self') ->
  result !! "njev" = Some (PInt 0)
  /\ result !! "success" = None
  /\ result !! "sucess" = Some (PBool true).
Proof.
  intros H. apply GSIntegrator_integrate_ok in H.
  destruct H as (dt & states & ts & nfev & y & _ & _ & _ & _ & _ & -> & _).
  repeat split; by simplify_map_eq.
Qed.

(** C6. A name that is not registered in [STEP_FUNCTIONS] is refused both by
    the constructor and by a later assignment to [step_type]: each raises
    [InvalidConfiguration], so no integrator with that stepper exists. *)
Theorem unregistered_step_type_raises (name : string) (self : GSIntegrator)
    (n : option Z) (sv : option bool) :
  STEP_FUNCTIONS !! name = None ->
  GSIntegrator_init n (Some (StepName name)) sv = Raise InvalidConfiguration
  /\ set_step_type self (StepName name) = Raise InvalidConfiguration.
Proof.
  intros Hname.
  assert (step_type_setter_values (StepName name) = Raise InvalidConfiguration)
    as Hset.
  { unfold step_type_setter_values, check_parameter_accepted_values.
    rewrite Hname. rewrite decide_False; [done|]. by intros [? ?]. }
  unfold GSIntegrator_init, set_step_type. cbn [from_option id].
  by rewrite Hset.
Qed.

(** A registered name is accepted, and the stepper stored is the function
    the module defines under the registered function name. *)
Lemma registered_step_type_accepted (name fname : string) (r : stepper_rule) :
  STEP_FUNCTIONS !! name = Some fname ->
  integrator_module !! fname = Some r ->
  step_type_setter_values (StepName name) = Ok (rule_function r, Some name).
Proof.
  intros Hname Hf. unfold step_type_setter_values, check_parameter_accepted_values.
  rewrite decide_True by (rewrite Hname; eauto). simpl.
  unfold dict_getitem. rewrite Hname. simpl.
  unfold module_getattr. by rewrite Hf.
Qed.

Lemma SCPSolveIVP_integrate_frame (self self' : SCPSolveIVP) (force : callable2)
    (initial_state : ndarray) (end_time : Qc) (result : OdeResult) :
  save_result (scp_base self) = false ->
  SCPSolveIVP_integrate self force initial_state end_time = Ok (result, self') ->
  self' = self.
Proof.
  unfold SCPSolveIVP_integrate. intros Hsv H.
  bind_inv H. bind_inv H. bind_inv H. bind_inv H.
  rewrite Hsv in H. by injection H as <- <-.
Qed.

Lemma GSIntegrator_integrate_frame (self self' : GSIntegrator) (force : callable2)
    (initial_state : ndarray) (end_time : Qc) (result : OdeResult) :
  save_result (gs_base self) = false ->
  GSIntegrator_integrate self force initial_state end_time = Ok (result, self') ->
  self' = self.
Proof.
  intros Hsv H. apply GSIntegrator_integrate_ok in H.
  destruct H as (dt & states & ts & nfev & y & _ & _ & _ & _ & _ & _ & ->).
  by rewrite Hsv.
Qed.

(** C10. Both constructors start with [result_ = None] and with the
    [save_result] they are given, [False] when it is omitted; an integrator
    with [save_result = False] is the same object after a call to
    [integrate] as before: no attribute changes and [result_] stays as it
    was. *)
Theorem integrate_without_save_result_frame (i i' : integrator_obj)
    (force : callable2) (initial_state : ndarray) (end_time : Qc)
    (result : OdeResult) :
  save_result (base_of i) = false ->
  integrate i force initial_state end_time = Ok (result, i') ->
  i' = i
  /\ (forall n st sv g, GSIntegrator_init n st sv = Ok g ->
        save_result (gs_base g) = default false sv
        /\ result_ (gs_base g) = None)
  /\ (forall m sv opts,
        save_result (scp_base (SCPSolveIVP_init m sv opts)) = default false sv
        /\ result_ (scp_base (SCPSolveIVP_init m sv opts)) = None).
Proof.
  intros Hsv H. split; [|split].
  - destruct i as [g|s]; simpl in *; bind_inv H; destruct a as [r x];
      injection H as <- <-; f_equal.
    + by eapply GSIntegrator_integrate_frame.
    + by eapply SCPSolveIVP_integrate_frame.
  - intros n st sv g Hg. unfold GSIntegrator_init in Hg. bind_inv Hg.
    destruct a as [sf v]. by injection Hg as <-.
  - done.
Qed.

(** ** Steppers at an equilibrium of the vector field *)

Lemma arr_add_scaled_zeros (a : ndarray) (c : Qc) :
  well_formed a -> arr_add a (arr_scale c (zeros (shape a))) = Ok a.
Proof. intros Hwf. rewrite arr_scale_zeros. by apply arr_add_zeros. Qed.

Lemma weighted_sum_zeros (s : list nat) (cs : list Qc) (ks : list ndarray) :
  Forall (fun k => k = zeros s) ks ->
  weighted_sum cs ks (zeros s) = Ok (zeros s).
Proof.
  intros Hks. revert cs. induction Hks as [|k ks -> _ IH]; intros [|c cs];
    simpl; try done.
  rewrite (arr_add_scaled_zeros (zeros s)) by apply zeros_well_formed.
  simpl. apply IH.
Qed.

Lemma rk_slopes_equilibrium (force : callable2) (state : ndarray) (time dt : Qc)
    (sts : list rk_stage) (ks : list ndarray) :
  well_formed state -> vanishes_at force state ->
  Forall (fun k => k = zeros (shape state)) ks ->
  exists ks',
    rk_slopes force state time dt sts ks = Ok ks'
    /\ Forall (fun k => k = zeros (shape state)) ks'.
Proof.
  intros Hwf Hzero. revert ks. induction sts as [|st sts IH]; intros ks Hks; simpl.
  - by exists ks.
  - unfold zeros_like. rewrite weighted_sum_zeros by done. simpl.
    rewrite arr_add_scaled_zeros by done. simpl.
    rewrite Hzero. simpl. apply IH.
    apply Forall_app. split; [done|]. by constructor.
Qed.

Lemma euler_step_equilibrium (force : callable2) (state : ndarray) (time dt : Qc) :
  well_formed state -> vanishes_at force state ->
  euler_step force state time dt = Ok state.
Proof.
  intros Hwf Hzero. unfold euler_step. rewrite Hzero. simpl.
  by apply arr_add_scaled_zeros.
Qed.

Lemma runge_kutta_step_equilibrium (tab : tableau) (force : callable2)
    (state : ndarray) (time dt : Qc) :
  well_formed state -> vanishes_at force state ->
  runge_kutta_step tab force state time dt = Ok state.
Proof.
  intros Hwf Hzero. unfold runge_kutta_step.
  destruct (rk_slopes_equilibrium force state time dt (stages tab) [])
    as (ks & -> & Hks); [done..|]. simpl.
  unfold zeros_like. rewrite weighted_sum_zeros by done. simpl.
  by apply arr_add_scaled_zeros.
Qed.

(** Every update rule of the module leaves an equilibrium where it is. *)
Lemma rule_function_equilibrium (r : stepper_rule) (force : callable2)
    (state : ndarray) (time dt : Qc) :
  well_formed state -> vanishes_at force state ->
  rule_function r force state time dt = Ok state.
Proof.
  destruct r; simpl; [apply euler_step_equilibrium|apply runge_kutta_step_equilibrium].
Qed.

Lemma integrate_loop_equilibrium (self : GSIntegrator) (force : callable2)
    (dt : Qc) (idx : list nat) (state : ndarray) (states : list ndarray) :
  (forall t, _step_function self force state t dt = Ok state) ->
  integrate_loop self force dt idx state states
  = Ok (states ++ replicate (length idx) state).
Proof.
  intros Hfix. revert states. induction idx as [|i idx IH]; intros states; simpl.
  - by rewrite app_nil_r.
  - unfold step. rewrite Hfix. simpl. rewrite IH, <- app_assoc. done.
Qed.

Lemma GSIntegrator_init_named (n : option Z) (name : string) (sv : option bool)
    (g : GSIntegrator) :
  GSIntegrator_init n (Some (StepName name)) sv = Ok g ->
  exists fname r,
    STEP_FUNCTIONS !! name = Some fname
    /\ integrator_module !! fname = Some r
    /\ g = {| gs_base := ODEIVPSolver_init (Some (default false sv))
                           (Some false) (Some false);
              _step_function := rule_function r;
              _step_type := Some name;
              n_steps := default 10 n |}.
Proof.
  unfold GSIntegrator_init. cbn [from_option id]. intros H. bind_inv H.
  destruct a as [sf v].
  unfold step_type_setter_values, check_parameter_accepted_values in Ha.
  destruct (STEP_FUNCTIONS !! name) as [fname|] eqn:Hname.
  - rewrite decide_True in Ha by eauto. simpl in Ha.
    unfold dict_getitem in Ha. rewrite Hname in Ha. simpl in Ha.
    unfold module_getattr in Ha.
    destruct (integrator_module !! fname) as [r|] eqn:Hr; [|done].
    simpl in Ha. injection Ha as <- <-. injection H as <-. by exists fname, r.
  - rewrite decide_False in Ha; [done|]. by intros [? ?].
Qed.

(** A trajectory that stays at [state]: the array [integrate] returns for
    it. *)
Lemma GSIntegrator_integrate_equilibrium (self : GSIntegrator) (force : callable2)
    (state : ndarray) (end_time : Qc) (name : string) (c : Z) (r : stepper_rule) :
  0 < n_steps self ->
  _step_function self = rule_function r ->
  step_type self = Some name ->
  FEVALS_PER_STEP !! name = Some c ->
  well_formed state -> vanishes_at force state ->
  exists result self',
    GSIntegrator_integrate self force state end_time = Ok (result, self')
    /\ result !! "y"
       = Some (PArr (stacked (replicate (Z.to_nat (n_steps self + 1)) state)
                       (shape state)))
    /\ self' = (if save_result (gs_base self)
                then {| gs_base := set_result_ (gs_base self) result;
                        _step_function := _step_function self;
                        _step_type := _step_type self;
                        n_steps := n_steps self |}
                else self).
Proof.
  intros Hpos Hrule Hty Hcost Hwf Hzero.
  destruct (gs_linspace_spec end_time (n_steps self) Hpos) as (ts & Hts & _).
  unfold GSIntegrator_integrate.
  rewrite py_div_nonzero by lia. cbn [bind].
  rewrite integrate_loop_equilibrium
    by (intros t; rewrite Hrule; by apply rule_function_equilibrium).
  cbn [bind]. rewrite Hts. cbn [bind].
  unfold _get_n_fevals. rewrite Hty. cbn [bind dict_getitem_opt].
  unfold dict_getitem. rewrite Hcost. cbn [bind].
  replace ([state] ++ replicate (length (py_range (n_steps self))) state)
    with (replicate (Z.to_nat (n_steps self + 1)) state).
  2:{ unfold py_range. rewrite length_seq.
      replace (Z.to_nat (n_steps self + 1)) with (S (Z.to_nat (n_steps self))) by lia.
      done. }
  rewrite (gs_array_uniform (shape state)).
  - cbn [bind]. destruct (save_result (gs_base self)); do 2 eexists;
      (split; [reflexivity|]); split; try reflexivity; by simplify_map_eq.
  - replace (Z.to_nat (n_steps self + 1)) with (S (Z.to_nat (n_steps self))) by lia.
    done.
  - apply Forall_replicate. done.
Qed.

(** C9. For a registered stepper name (accepted by the constructor, with an
    evaluation count in [FEVALS_PER_STEP]), a positive [n_steps] and any
    initial state and end time, [integrate] on the identically-zero vector
    field returns a trajectory of [n_steps + 1] states, each equal to the
    initial state. *)
Theorem zero_field_trajectory_constant (name : string) (c : Z) (n : option Z)
    (sv : option bool) (g : GSIntegrator) (initial_state : ndarray)
    (end_time : Qc) :
  GSIntegrator_init n (Some (StepName name)) sv = Ok g ->
  FEVALS_PER_STEP !! name = Some c ->
  0 < n_steps g ->
  well_formed initial_state ->
  exists result g' y,
    GSIntegrator_integrate g zero_field initial_state end_time = Ok (result, g')
    /\ result !! "y" = Some (PArr y)
    /\ shape y = Z.to_nat (n_steps g + 1) :: shape initial_state
    /\ (forall i : nat, Z.of_nat i <= n_steps g ->
          getitem y (Z.of_nat i) = Ok initial_state).
Proof.
  intros Hinit Hcost Hpos Hwf.
  destruct (GSIntegrator_init_named _ _ _ _ Hinit) as (fname & r & _ & _ & Hg).
  destruct (GSIntegrator_integrate_equilibrium g zero_field initial_state
              end_time name c r) as (result & g' & Hcall & Hy & _);
    try done; try (by rewrite Hg).
  exists result, g', (stacked (replicate (Z.to_nat (n_steps g + 1)) initial_state)
                        (shape initial_state)).
  split; [done|]. split; [done|]. split.
  { simpl. by rewrite length_replicate. }
  intros i Hi. apply getitem_stacked.
  - by apply Forall_replicate.
  - apply lookup_replicate_2. lia.
Qed.

(** ** The adaptive adapter *)

Lemma flat_map_block {A B : Type} (f : A -> list B) (l : list A) (n i j : nat)
    (a : A) (d : B) :
  (forall x, length (f x) = n) -> l !! i = Some a -> (j < n)%nat ->
  nth (i * n + j) (flat_map f l) d = nth j (f a) d.
Proof.
  intros Hlen. revert i. induction l as [|x l IH]; intros i Hi Hj; [done|].
  destruct i as [|i]; simpl in *.
  - injection Hi as ->. rewrite app_nth1; [done|]. by rewrite Hlen.
  - rewrite app_nth2 by (rewrite Hlen; lia). rewrite Hlen.
    replace (n + i * n + j - n)%nat with (i * n + j)%nat by lia.
    by apply IH.
Qed.

Lemma nth_map_seq (g : nat -> Qc) (n j : nat) :
  (j < n)%nat -> nth j (map g (seq 0 n)) 0%Qc = g j.
Proof.
  intros Hj. rewrite (nth_indep _ _ (g 0%nat)) by (by rewrite length_map, length_seq).
  rewrite map_nth, seq_nth by done. done.
Qed.

Lemma size_of_singleton (n : nat) : size_of [n] = n.
Proof. unfold size_of; simpl. lia. Qed.

Lemma flat_map_length_uniform {A B : Type} (f : A -> list B) (l : list A) (n : nat) :
  (forall x, length (f x) = n) -> length (flat_map f l) = (length l * n)%nat.
Proof.
  intros Hlen. induction l as [|x l IH]; simpl; [done|].
  by rewrite length_app, Hlen, IH.
Qed.

(** [gs.moveaxis(y, 0, -1)] on a matrix is its transpose. *)
Lemma gs_moveaxis_matrix (a : ndarray) (n p : nat) :
  shape a = [n; p] ->
  exists b,
    gs_moveaxis_first_to_last a = Ok b
    /\ uniform [p; n] b
    /\ (forall i j, (i < p)%nat -> (j < n)%nat -> entry2 b i j = entry2 a j i).
Proof.
  intros Hs. unfold gs_moveaxis_first_to_last. rewrite Hs.
  eexists. split; [reflexivity|]. split.
  { split; [done|]. unfold well_formed. cbn [shape data app].
    rewrite (flat_map_length_uniform _ _ n)
      by (intros x; by rewrite length_map, length_seq).
    rewrite length_seq, size_of_singleton.
    change (size_of [p; n]) with (p * size_of [n])%nat.
    by rewrite size_of_singleton. }
  intros i j Hi Hj. unfold entry2. cbn [shape data tail app]. rewrite Hs.
  cbn [tail]. rewrite !size_of_singleton.
  rewrite (flat_map_block _ (seq 0 p) n i j i).
  - by rewrite nth_map_seq.
  - intros x. by rewrite length_map, length_seq.
  - by apply lookup_seq_lt.
  - done.
Qed.

Lemma to_backend_value_id (v : pyval) : to_backend_value v = v.
Proof. by destruct v. Qed.

Lemma _ode_result_to_backend_type_lookup (ode_result : OdeResult) (key : string) :
  _ode_result_to_backend_type ode_result !! key = ode_result !! key.
Proof.
  unfold _ode_result_to_backend_type. destruct (endswith gs_name "numpy"); [done|].
  rewrite lookup_fmap. destruct (ode_result !! key) as [v|]; simpl; [|done].
  by rewrite to_backend_value_id.
Qed.

(** The trace of a call to the adapter when the external solver returns a
    matrix. *)
Lemma SCPSolveIVP_integrate_transposed (self : SCPSolveIVP) (force : callable2)
    (initial_state : ndarray) (end_time : Qc) (raw : OdeResult)
    (y_raw : ndarray) (n p : nat) :
  solve_ivp (fun t state => force (PFloat t) (PArr state)) (0%Qc, end_time)
    (gs_flatten initial_state) (method self) (options self) = Ok raw ->
  raw !! "y" = Some (PArr y_raw) ->
  shape y_raw = [n; p] ->
  exists result self' y,
    SCPSolveIVP_integrate self force initial_state end_time = Ok (result, self')
    /\ result !! "y" = Some (PArr y)
    /\ uniform [p; n] y
    /\ (forall i j, (i < p)%nat -> (j < n)%nat -> entry2 y i j = entry2 y_raw j i)
    /\ (forall key, key <> "y" -> result !! key = raw !! key)
    /\ state_is_raveled (scp_base self') = state_is_raveled (scp_base self).
Proof.
  intros Hraw Hy Hshape.
  destruct (gs_moveaxis_matrix y_raw n p Hshape) as (y & Hmove & Hys & Hentries).
  unfold SCPSolveIVP_integrate. rewrite Hraw. cbn [bind].
  unfold result_getattr. rewrite _ode_result_to_backend_type_lookup, Hy.
  cbn [bind as_array]. rewrite Hmove. cbn [bind].
  destruct (save_result (scp_base self)); do 2 eexists; exists y;
    (split; [reflexivity|]); (split; [by simplify_map_eq|]);
    (split; [done|]); (split; [done|]); (split; [|done]);
    intros key Hkey; rewrite lookup_insert_ne by done;
    apply _ode_result_to_backend_type_lookup.
Qed.

(** C3 (as the code has it). When the external solver returns a raw result
    whose state array is an [n] by [p] matrix (the [n] components of the
    state along the first axis, the [p] time points along the second), the
    adapter returns that matrix transposed: a [p] by [n] array with time as
    its first axis, element [(i, j)] being the raw element [(j, i)]; every
    other field of the raw result is returned as it is. *)
Theorem adaptive_result_is_transposed (self : SCPSolveIVP) (force : callable2)
    (initial_state : ndarray) (end_time : Qc) (raw : OdeResult)
    (y_raw : ndarray) (n p : nat) :
  solve_ivp (fun t state => force (PFloat t) (PArr state)) (0%Qc, end_time)
    (gs_flatten initial_state) (method self) (options self) = Ok raw ->
  raw !! "y" = Some (PArr y_raw) ->
  shape y_raw = [n; p] ->
  exists result self' y,
    SCPSolveIVP_integrate self force initial_state end_time = Ok (result, self')
    /\ result !! "y" = Some (PArr y)
    /\ shape y = [p; n]
    /\ (forall i j, (i < p)%nat -> (j < n)%nat -> entry2 y i j = entry2 y_raw j i)
    /\ (forall key, key <> "y" -> result !! key = raw !! key).
Proof.
  intros Hraw Hy Hshape.
  destruct (SCPSolveIVP_integrate_transposed self force initial_state end_time
              raw y_raw n p Hraw Hy Hshape)
    as (result & self' & y & Hcall & Hry & [Hys _] & Hentries & Hkeys & _).
  by exists result, self', y.
Qed.

(** ** The exponential-map solver *)

Lemma integrate_keeps_layout (i i' : integrator_obj) (force : callable2)
    (initial_state : ndarray) (end_time : Qc) (result : OdeResult) :
  integrate i force initial_state end_time = Ok (result, i') ->
  state_is_raveled (base_of i') = state_is_raveled (base_of i)
  /\ tfirst (base_of i') = tfirst (base_of i).
Proof.
  destruct i as [g|s]; simpl; intros H; bind_inv H; destruct a as [r x];
    injection H as <- <-; simpl.
  - apply GSIntegrator_integrate_ok in Ha.
    destruct Ha as (dt & states & ts & nfev & y & _ & _ & _ & _ & _ & _ & ->).
    by destruct (save_result (gs_base g)).
  - unfold SCPSolveIVP_integrate in Ha.
    bind_inv Ha. bind_inv Ha. bind_inv Ha. bind_inv Ha.
    by destruct (save_result (scp_base s)); injection Ha as <- <-.
Qed.

Lemma gs_broadcast_to_shape (a b : ndarray) (t : list nat) :
  gs_broadcast_to a t = Ok b -> shape b = t.
Proof.
  unfold gs_broadcast_to. intros H.
  repeat (case_match; try done). by injection H as <-.
Qed.

Lemma gs_stack_pair (a b : ndarray) :
  shape b = shape a -> gs_stack [a; b] = Ok (stacked [a; b] (shape a)).
Proof.
  intros Hs. unfold gs_stack, gs_array. simpl. unfold same_shape_as.
  by rewrite !bool_decide_true.
Qed.

(** C1. [solve] broadcasts the base point to the tangent vector's shape,
    hands the stack of the two to the wrapped integrator with the force of
    [_get_force] and [end_time = 1], and returns the position part of the
    last state of the trajectory: its first [dim] entries when the
    integrator works on raveled states, its first stacked component
    otherwise. An exception of the integrator is the exception of [solve]. *)
Theorem solve_delegates_to_integrator (self : ExpODESolver) (metric : metric_obj)
    (tangent_vec base_point bp : ndarray) :
  gs_broadcast_to base_point (shape tangent_vec) = Ok bp ->
  (forall e,
     integrate (integrator self) (_get_force self metric)
       (stacked [bp; tangent_vec] (shape tangent_vec)) 1%Qc = Raise e ->
     solve self metric tangent_vec base_point = Raise e)
  /\ (forall result integrator' y last_state,
        integrate (integrator self) (_get_force self metric)
          (stacked [bp; tangent_vec] (shape tangent_vec)) 1%Qc
        = Ok (result, integrator') ->
        result !! "y" = Some (PArr y) ->
        getitem y (-1) = Ok last_state ->
        well_formed last_state ->
        (state_is_raveled (base_of (integrator self)) = true ->
         forall n, shape last_state = [n] ->
           solve self metric tangent_vec base_point
           = Ok (mk_ndarray [Nat.min (dim metric) n]
                   (take (dim metric) (data last_state)),
                 {| integrator := integrator' |}))
        /\ (state_is_raveled (base_of (integrator self)) = false ->
            forall s, shape last_state = 2%nat :: s ->
              solve self metric tangent_vec base_point
              = Ok (mk_ndarray s (take (size_of s) (data last_state)),
                    {| integrator := integrator' |}))).
Proof.
  intros Hbp.
  pose proof (gs_broadcast_to_shape _ _ _ Hbp) as Hbps.
  assert (solve self metric tangent_vec base_point
          = bind (integrate (integrator self) (_get_force self metric)
                    (stacked [bp; tangent_vec] (shape tangent_vec)) 1%Qc)
              (fun '(result, integrator') =>
                 bind (_simplify_result {| integrator := integrator' |} result metric)
                   (fun point => Ok (point, {| integrator := integrator' |}))))
    as Hunfold.
  { unfold solve. rewrite Hbp. cbn [bind].
    rewrite gs_stack_pair by done. by rewrite Hbps. }
  split.
  { intros e He. by rewrite Hunfold, He. }
  intros result integrator' y last_state Hint Hy Hlast Hwf.
  pose proof (integrate_keeps_layout _ _ _ _ _ _ Hint) as [Hrav _].
  assert (solve self metric tangent_vec base_point
          = bind (if state_is_raveled (base_of (integrator self))
                  then slice_to last_state (dim metric)
                  else getitem last_state 0)
              (fun point => Ok (point, {| integrator := integrator' |}))) as Hsolve.
  { rewrite Hunfold, Hint. cbn [bind].
    unfold _simplify_result, result_getattr. rewrite Hy. cbn [bind as_array].
    rewrite Hlast. cbn [bind integrator]. by rewrite Hrav. }
  split; intros Hflag; rewrite Hflag in Hsolve.
  - intros n Hn. rewrite Hsolve. unfold slice_to. rewrite Hn. cbn [bind].
    do 3 f_equal. rewrite size_of_nil_mul.
    unfold well_formed in Hwf. rewrite Hn, size_of_singleton in Hwf.
    destruct (Nat.min_spec (dim metric) n) as [[_ ->]|[Hle ->]]; [done|].
    rewrite !take_ge by lia. done.
  - intros s Hs. rewrite Hsolve. unfold getitem. rewrite Hs.
    destruct (decide (0 < 0)) as [?|_]; [lia|].
    rewrite decide_True by lia. cbn [bind]. by rewrite drop_0.
Qed.



(** ** The zero tangent vector around the adaptive adapter *)

Lemma getitem_last (a : ndarray) (p : nat) (s : list nat) :
  shape a = S p :: s ->
  getitem a (-1)
  = Ok (mk_ndarray s (take (size_of s) (drop (p * size_of s) (data a)))).
Proof.
  intros Hs. unfold getitem. rewrite Hs.
  destruct (decide (-1 < 0)) as [_|?]; [|lia].
  rewrite decide_True by lia. do 4 f_equal. lia.
Qed.






(** ** Batches of points *)

Lemma gather_length (m k i : nat) (d : list Qc) :
  length d = (2 * (k * m))%nat -> (i < k)%nat ->
  length (gather m k i d) = (2 * m)%nat.
Proof.
  intros Hd Hi. unfold gather.
  rewrite length_app, !length_take, !length_drop. nia.
Qed.

Lemma gather_zip_with (f : Qc -> Qc -> Qc) (m k i : nat) (a b : list Qc) :
  length a = length b ->
  gather m k i (zip_with f a b) = zip_with f (gather m k i a) (gather m k i b).
Proof.
  intros Hab. unfold gather.
  rewrite !zip_with_drop, !zip_with_take, zip_with_app; [done|].
  rewrite !length_take, !length_drop. lia.
Qed.

Lemma gather_map (f : Qc -> Qc) (m k i : nat) (d : list Qc) :
  gather m k i (map f d) = map f (gather m k i d).
Proof.
  unfold gather. rewrite map_app.
  change (map f) with (fmap (M:=list) f). by rewrite !fmap_take, !fmap_drop.
Qed.

Lemma gather_replicate (m k i : nat) (x : Qc) :
  (i < k)%nat ->
  gather m k i (replicate (2 * (k * m)) x) = replicate (2 * m) x.
Proof.
  intros Hi. unfold gather.
  rewrite !drop_replicate, !take_replicate.
  replace (2 * m)%nat with (m + m)%nat by lia. rewrite replicate_add.
  f_equal; f_equal; nia.
Qed.

Lemma size_of_batch (k : nat) (s : list nat) :
  size_of (2%nat :: k :: s) = (2 * (k * size_of s))%nat.
Proof. reflexivity. Qed.

Lemma size_of_pair (s : list nat) : size_of (2%nat :: s) = (2 * size_of s)%nat.
Proof. reflexivity. Qed.

Lemma batch_item_eq (i k : nat) (s : list nat) (a : ndarray) :
  shape a = 2%nat :: k :: s ->
  batch_item i a = mk_ndarray (2%nat :: s) (gather (size_of s) k i (data a)).
Proof. intros Hs. unfold batch_item. by rewrite Hs. Qed.

Lemma batch_item_uniform (i k : nat) (s : list nat) (a : ndarray) :
  uniform (2%nat :: k :: s) a -> (i < k)%nat -> uniform (2%nat :: s) (batch_item i a).
Proof.
  intros [Hs Hwf] Hi. rewrite (batch_item_eq i k s) by done.
  split; [done|]. unfold well_formed in *. cbn [shape data].
  rewrite size_of_pair. apply gather_length; [|done].
  by rewrite Hwf, Hs, size_of_batch.
Qed.

Lemma batch_item_arr_scale (c : Qc) (i k : nat) (s : list nat) (a : ndarray) :
  shape a = 2%nat :: k :: s ->
  batch_item i (arr_scale c a) = arr_scale c (batch_item i a).
Proof.
  intros Hs. rewrite (batch_item_eq i k s (arr_scale c a)) by done.
  rewrite (batch_item_eq i k s a) by done.
  unfold arr_scale. cbn [shape data]. by rewrite gather_map.
Qed.

Lemma arr_scale_uniform (c : Qc) (s : list nat) (a : ndarray) :
  uniform s a -> uniform s (arr_scale c a).
Proof. intros [Hs Hwf]. split; [done|]. by apply arr_scale_well_formed. Qed.

Lemma batch_item_zeros (i k : nat) (s : list nat) :
  (i < k)%nat -> batch_item i (zeros (2%nat :: k :: s)) = zeros (2%nat :: s).
Proof.
  intros Hi. rewrite (batch_item_eq i k s) by done. unfold zeros. cbn [data].
  by rewrite size_of_batch, size_of_pair, gather_replicate.
Qed.

Lemma zeros_uniform (s : list nat) : uniform s (zeros s).
Proof. split; [done|apply zeros_well_formed]. Qed.

Lemma arr_add_uniform (s : list nat) (a b : ndarray) :
  uniform s a -> uniform s b ->
  exists c, arr_add a b = Ok c /\ uniform s c
            /\ data c = zip_with Qcplus (data a) (data b).
Proof.
  intros [Ha Hwa] [Hb Hwb]. rewrite arr_add_same_shape by (done || congruence).
  eexists. split; [reflexivity|]. split; [|done]. split; [done|].
  unfold well_formed in *. cbn [shape data].
  rewrite length_zip_with_l_eq; [done|]. rewrite Hwa, Hwb. congruence.
Qed.

Lemma arr_add_batch (k : nat) (s : list nat) (a b : ndarray) :
  uniform (2%nat :: k :: s) a -> uniform (2%nat :: k :: s) b ->
  exists c,
    arr_add a b = Ok c /\ uniform (2%nat :: k :: s) c
    /\ (forall i, (i < k)%nat ->
          arr_add (batch_item i a) (batch_item i b) = Ok (batch_item i c)).
Proof.
  intros Ha Hb.
  destruct (arr_add_uniform _ a b Ha Hb) as (c & Hc & Hcu & Hcd).
  exists c. split; [done|]. split; [done|]. intros i Hi.
  destruct (arr_add_uniform _ _ _ (batch_item_uniform i k s a Ha Hi)
              (batch_item_uniform i k s b Hb Hi)) as (ci & Hci & [Hcis _] & Hcid).
  rewrite Hci. f_equal. apply ndarray_eq.
  - rewrite Hcis. rewrite (batch_item_eq i k s c); [done|apply Hcu].
  - rewrite Hcid.
    rewrite (batch_item_eq i k s a), (batch_item_eq i k s b),
      (batch_item_eq i k s c) by (apply Ha || apply Hb || apply Hcu).
    cbn [data]. rewrite Hcd, gather_zip_with; [done|].
    destruct Ha as [Has Haw], Hb as [Hbs Hbw]. rewrite Haw, Hbw. congruence.
Qed.

Lemma weighted_sum_batch (k : nat) (s : list nat) (cs : list Qc)
    (ks : list ndarray) (acc : ndarray) :
  Forall (uniform (2%nat :: k :: s)) ks -> uniform (2%nat :: k :: s) acc ->
  exists total,
    weighted_sum cs ks acc = Ok total /\ uniform (2%nat :: k :: s) total
    /\ (forall i, (i < k)%nat ->
          weighted_sum cs (map (batch_item i) ks) (batch_item i acc)
          = Ok (batch_item i total)).
Proof.
  intros Hks. revert cs acc. induction Hks as [|x ks Hx _ IH]; intros cs acc Hacc.
  - exists acc. destruct cs; simpl; done.
  - destruct cs as [|c cs]; [by exists acc|]. simpl.
    destruct (arr_add_batch k s acc (arr_scale c x)) as (acc' & Hadd & Hacc' & Hitems);
      [done|by apply arr_scale_uniform|].
    rewrite Hadd. cbn [bind].
    destruct (IH cs acc' Hacc') as (total & Htotal & Hu & Hti).
    exists total. split; [done|]. split; [done|]. intros i Hi.
    rewrite <- (batch_item_arr_scale c i k s) by apply Hx.
    rewrite Hitems by done. cbn [bind]. by apply Hti.
Qed.

Lemma euler_step_batch (force : callable2) (k : nat) (s : list nat)
    (B : ndarray) (time dt : Qc) :
  vectorised force k s -> uniform (2%nat :: k :: s) B ->
  exists B',
    euler_step force B time dt = Ok B' /\ uniform (2%nat :: k :: s) B'
    /\ (forall i, (i < k)%nat ->
          euler_step force (batch_item i B) time dt = Ok (batch_item i B')).
Proof.
  intros Hforce HB. unfold euler_step.
  destruct (Hforce B (PFloat time) HB) as (D & HD & HDu & HDi).
  rewrite HD. cbn [bind].
  destruct (arr_add_batch k s B (arr_scale dt D)) as (B' & Hadd & HB' & Hitems);
    [done|by apply arr_scale_uniform|].
  exists B'. split; [done|]. split; [done|]. intros i Hi.
  rewrite HDi by done. cbn [bind].
  rewrite <- (batch_item_arr_scale dt i k s) by apply HDu. by apply Hitems.
Qed.

Lemma rk_slopes_batch (force : callable2) (k : nat) (s : list nat)
    (B : ndarray) (time dt : Qc) (sts : list rk_stage) (ks : list ndarray) :
  vectorised force k s -> uniform (2%nat :: k :: s) B ->
  Forall (uniform (2%nat :: k :: s)) ks ->
  exists ks',
    rk_slopes force B time dt sts ks = Ok ks'
    /\ Forall (uniform (2%nat :: k :: s)) ks'
    /\ (forall i, (i < k)%nat ->
          rk_slopes force (batch_item i B) time dt sts (map (batch_item i) ks)
          = Ok (map (batch_item i) ks')).
Proof.
  intros Hforce HB. revert ks. induction sts as [|st sts IH]; intros ks Hks.
  - by exists ks.
  - cbn [rk_slopes]. unfold zeros_like.
    destruct HB as [HBs HBw]. rewrite HBs.
    destruct (weighted_sum_batch k s (coeffs st) ks (zeros (2%nat :: k :: s)))
      as (incr & Hincr & Hincru & Hincri); [done|apply zeros_uniform|].
    rewrite Hincr. cbn [bind].
    destruct (arr_add_batch k s B (arr_scale dt incr)) as (y & Hy & Hyu & Hyi);
      [done|by apply arr_scale_uniform|].
    rewrite Hy. cbn [bind].
    destruct (Hforce y (PFloat (time + node st * dt)%Qc) Hyu) as (D & HD & HDu & HDi).
    rewrite HD. cbn [bind].
    destruct (IH (ks ++ [D])) as (ks' & Hks' & Hks'u & Hks'i).
    { apply Forall_app. split; [done|]. by constructor. }
    exists ks'. split; [done|]. split; [done|]. intros i Hi.
    destruct (batch_item_uniform i k s B (conj HBs HBw) Hi) as [HBis _].
    rewrite HBis. rewrite <- (batch_item_zeros i k s) by done.
    rewrite Hincri by done. cbn [bind].
    rewrite <- (batch_item_arr_scale dt i k s) by apply Hincru.
    rewrite Hyi by done. cbn [bind].
    rewrite HDi by done. cbn [bind].
    rewrite <- (Hks'i i Hi). by rewrite map_app.
Qed.

Lemma runge_kutta_step_batch (tab : tableau) (force : callable2) (k : nat)
    (s : list nat) (B : ndarray) (time dt : Qc) :
  vectorised force k s -> uniform (2%nat :: k :: s) B ->
  exists B',
    runge_kutta_step tab force B time dt = Ok B' /\ uniform (2%nat :: k :: s) B'
    /\ (forall i, (i < k)%nat ->
          runge_kutta_step tab force (batch_item i B) time dt
          = Ok (batch_item i B')).
Proof.
  intros Hforce HB. unfold runge_kutta_step.
  destruct (rk_slopes_batch force k s B time dt (stages tab) [] Hforce HB)
    as (ks & Hks & Hksu & Hksi); [done|].
  rewrite Hks. cbn [bind]. unfold zeros_like.
  pose proof HB as [HBs HBw]. rewrite HBs.
  destruct (weighted_sum_batch k s (weights tab) ks (zeros (2%nat :: k :: s)))
    as (incr & Hincr & Hincru & Hincri); [done|apply zeros_uniform|].
  rewrite Hincr. cbn [bind].
  destruct (arr_add_batch k s B (arr_scale dt incr)) as (B' & HB' & HB'u & HB'i);
    [done|by apply arr_scale_uniform|].
  exists B'. split; [done|]. split; [done|]. intros i Hi.
  specialize (Hksi i Hi). cbn [map] in Hksi. rewrite Hksi. cbn [bind].
  destruct (batch_item_uniform i k s B HB Hi) as [HBis _].
  rewrite HBis. rewrite <- (batch_item_zeros i k s) by done.
  rewrite Hincri by done. cbn [bind].
  rewrite <- (batch_item_arr_scale dt i k s) by apply Hincru.
  by apply HB'i.
Qed.

Lemma rule_function_batch (r : stepper_rule) (force : callable2) (k : nat)
    (s : list nat) (B : ndarray) (time dt : Qc) :
  vectorised force k s -> uniform (2%nat :: k :: s) B ->
  exists B',
    rule_function r force B time dt = Ok B' /\ uniform (2%nat :: k :: s) B'
    /\ (forall i, (i < k)%nat ->
          rule_function r force (batch_item i B) time dt = Ok (batch_item i B')).
Proof.
  destruct r; cbn [rule_function];
    [apply euler_step_batch|apply runge_kutta_step_batch].
Qed.

Lemma integrate_loop_batch (self : GSIntegrator) (r : stepper_rule)
    (force : callable2) (dt : Qc) (k : nat) (s : list nat) (idx : list nat)
    (B : ndarray) (states : list ndarray) :
  _step_function self = rule_function r ->
  vectorised force k s -> uniform (2%nat :: k :: s) B ->
  Forall (uniform (2%nat :: k :: s)) states ->
  last states = Some B ->
  exists states' B',
    integrate_loop self force dt idx B states = Ok states'
    /\ Forall (uniform (2%nat :: k :: s)) states'
    /\ last states' = Some B'
    /\ (forall i, (i < k)%nat ->
          integrate_loop self force dt idx (batch_item i B)
            (map (batch_item i) states)
          = Ok (map (batch_item i) states')).
Proof.
  intros Hrule Hforce. revert B states.
  induction idx as [|j idx IH]; intros B states HB Hstates Hlast.
  - exists states, B. by cbn [integrate_loop].
  - cbn [integrate_loop]. unfold step. rewrite Hrule.
    destruct (rule_function_batch r force k s B (Qc_of_Z (Z.of_nat j) * dt)%Qc dt
                Hforce HB) as (B' & HB' & HB'u & HB'i).
    rewrite HB'. cbn [bind].
    destruct (IH B' (states ++ [B'])) as (states' & Bl & Hloop & Hu & Hl & Hi).
    { done. }
    { apply Forall_app. split; [done|]. by constructor. }
    { apply last_snoc. }
    exists states', Bl. split; [done|]. split; [done|]. split; [done|].
    intros i Hik. rewrite HB'i by done. cbn [bind].
    rewrite <- (Hi i Hik). by rewrite map_app.
Qed.

Lemma getitem_nat (a : ndarray) (n i : nat) (s : list nat) :
  shape a = n :: s -> (i < n)%nat ->
  getitem a (Z.of_nat i)
  = Ok (mk_ndarray s (take (size_of s) (drop (i * size_of s) (data a)))).
Proof.
  intros Hs Hi. unfold getitem. rewrite Hs.
  destruct (decide (Z.of_nat i < 0)) as [?|_]; [lia|].
  rewrite decide_True by lia. by rewrite Nat2Z.id.
Qed.

Lemma gs_broadcast_to_prepend (a : ndarray) (k : nat) :
  well_formed a ->
  gs_broadcast_to a (k :: shape a)
  = Ok (mk_ndarray (k :: shape a) (concat (replicate k (data a)))).
Proof.
  intros Hwf. unfold gs_broadcast_to. cbn [length].
  rewrite decide_True by lia.
  unfold pad_shape. replace (S (length (shape a)) - length (shape a))%nat
    with 1%nat by lia.
  cbn [replicate app zip zip_with forallb].
  change (zip_with pair (shape a) (shape a)) with (zip (shape a) (shape a)).
  rewrite axis_compatible_same.
  replace (axis_compatible (1%nat, k)) with true.
  2:{ unfold axis_compatible. cbn [fst snd].
      rewrite (bool_decide_true (1%nat = 1%nat)) by done. by rewrite orb_true_r. }
  cbn [andb]. do 2 f_equal. cbn [broadcast_data chunks map hd].
  rewrite take_ge by (rewrite Hwf; lia).
  rewrite broadcast_data_same by done.
  destruct (decide (1%nat = k)) as [<-|_]; done.
Qed.

Lemma concat_replicate_block (m k i : nat) (d : list Qc) :
  length d = m -> (i < k)%nat ->
  take m (drop (i * m) (concat (replicate k d))) = d.
Proof.
  intros Hd. revert i. induction k as [|k IH]; intros i Hi; [lia|].
  cbn [replicate concat]. destruct i as [|i].
  - cbn [Nat.mul]. rewrite drop_0. by apply take_app_length'.
  - rewrite drop_app_ge by (rewrite Hd; nia). rewrite Hd.
    replace (S i * m - m)%nat with (i * m)%nat by nia. apply IH. lia.
Qed.

Lemma concat_replicate_length (m k : nat) (d : list Qc) :
  length d = m -> length (concat (replicate k d)) = (k * m)%nat.
Proof.
  intros Hd. induction k as [|k IH]; [done|].
  cbn [replicate concat]. rewrite length_app, IH, Hd. lia.
Qed.

(** The trace of a call whose loop produced [states]. *)
Lemma GSIntegrator_integrate_states (self : GSIntegrator) (force : callable2)
    (initial_state : ndarray) (end_time : Qc) (name : string) (c : Z)
    (sh : list nat) (states : list ndarray) :
  0 < n_steps self ->
  step_type self = Some name ->
  FEVALS_PER_STEP !! name = Some c ->
  integrate_loop self force (end_time / Qc_of_Z (n_steps self))%Qc
    (py_range (n_steps self)) initial_state [initial_state] = Ok states ->
  states <> [] ->
  Forall (uniform sh) states ->
  exists result self',
    GSIntegrator_integrate self force initial_state end_time = Ok (result, self')
    /\ result !! "y" = Some (PArr (stacked states sh))
    /\ state_is_raveled (gs_base self') = state_is_raveled (gs_base self).
Proof.
  intros Hpos Hty Hcost Hloop Hne Hu.
  destruct (gs_linspace_spec end_time (n_steps self) Hpos) as (ts & Hts & _).
  unfold GSIntegrator_integrate.
  rewrite py_div_nonzero by lia. cbn [bind]. rewrite Hloop. cbn [bind].
  rewrite Hts. cbn [bind].
  unfold _get_n_fevals. rewrite Hty. cbn [bind dict_getitem_opt].
  unfold dict_getitem. rewrite Hcost. cbn [bind].
  rewrite (gs_array_uniform sh) by done. cbn [bind].
  destruct (save_result (gs_base self)); do 2 eexists;
    (split; [reflexivity|]); split; try reflexivity; by simplify_map_eq.
Qed.

(** Item [i] of the batched initial state is the initial state of the
    [i]-th tangent vector. *)
Lemma batch_item_initial (bp tvs : ndarray) (k i : nat) :
  well_formed bp -> uniform (k :: shape bp) tvs -> (i < k)%nat ->
  batch_item i
    (stacked [mk_ndarray (k :: shape bp) (concat (replicate k (data bp))); tvs]
       (k :: shape bp))
  = stacked
      [bp; mk_ndarray (shape bp)
             (take (size_of (shape bp)) (drop (i * size_of (shape bp)) (data tvs)))]
      (shape bp).
Proof.
  intros Hwf [Hts Htw] Hi.
  rewrite (batch_item_eq i k (shape bp)) by done.
  unfold stacked. cbn [length map concat data]. f_equal.
  rewrite !app_nil_r. unfold gather.
  set (m := size_of (shape bp)).
  pose proof (concat_replicate_length m k (data bp) Hwf) as Hlen.
  f_equal.
  - rewrite drop_app_le by (rewrite Hlen; nia).
    rewrite take_app_le by (rewrite length_drop, Hlen; nia).
    by apply concat_replicate_block.
  - rewrite drop_app_ge by (rewrite Hlen; nia). rewrite Hlen.
    by replace ((k + i) * m - k * m)%nat with (i * m)%nat by nia.
Qed.

(** The position of item [i] is item [i] of the positions. *)
Lemma position_of_item (m k i : nat) (d : list Qc) :
  length d = (2 * (k * m))%nat -> (i < k)%nat ->
  take m (drop (i * m) (take (k * m) d)) = take m (gather m k i d).
Proof.
  intros Hd Hi. unfold gather.
  rewrite take_app_le by (rewrite length_take, length_drop; nia).
  rewrite take_take, Nat.min_id.
  rewrite (take_drop_commute (take (k * m) d)), take_take.
  replace (Nat.min (i * m + m) (k * m)) with (i * m + m)%nat by nia.
  by rewrite <- take_drop_commute.
Qed.

(** C8 (as the code has it). Around a fixed-step integrator with a
    registered stepper, and for a metric whose geodesic equation acts point
    by point on batches, [solve] on one base point of shape [s] and [k]
    tangent vectors (an array of shape [(k, s)]) returns [k] points, the
    [i]-th being the point [solve] returns for the [i]-th tangent vector
    alone. *)
Theorem batched_solve_consistent (metric : metric_obj) (name : string) (c : Z)
    (n : option Z) (sv : option bool) (g : GSIntegrator)
    (base_point tangent_vecs : ndarray) (k : nat) :
  GSIntegrator_init n (Some (StepName name)) sv = Ok g ->
  FEVALS_PER_STEP !! name = Some c ->
  0 < n_steps g ->
  vectorised (geodesic_equation metric) k (shape base_point) ->
  well_formed base_point ->
  uniform (k :: shape base_point) tangent_vecs ->
  batch_consistent (solve {| integrator := FixedStep g |} metric)
    tangent_vecs base_point k.
Proof.
  intros Hinit Hcost Hpos Hvec Hwf Htv.
  destruct (GSIntegrator_init_named _ _ _ _ Hinit) as (fname & r & _ & _ & Hg).
  assert (state_is_raveled (gs_base g) = false /\ tfirst (gs_base g) = false
          /\ _step_function g = rule_function r /\ step_type g = Some name)
    as (Hrav & Htf & Hrule & Hty) by (by rewrite Hg).
  set (s := shape base_point) in *. set (m := size_of s).
  set (force := _get_force {| integrator := FixedStep g |} metric).
  assert (vectorised force k s) as Hforce.
  { unfold force, _get_force. cbn [integrator base_of]. rewrite Hrav, Htf.
    exact Hvec. }
  set (bpb := mk_ndarray (k :: s) (concat (replicate k (data base_point)))).
  assert (uniform (k :: s) bpb) as Hbpb.
  { split; [done|]. unfold well_formed, bpb. cbn [shape data].
    rewrite (concat_replicate_length m); done. }
  set (B := stacked [bpb; tangent_vecs] (k :: s)).
  assert (uniform (2%nat :: k :: s) B) as HB.
  { split; [done|]. apply stacked_well_formed.
    constructor; [done|]. constructor; [done|]. constructor. }
  destruct (integrate_loop_batch g r force (default_end_time / Qc_of_Z (n_steps g))%Qc
              k s (py_range (n_steps g)) B [B] Hrule Hforce HB)
    as (states & Bl & Hloop & Hstates & Hlast & Hitems); [by constructor|done|].
  assert (states <> []) as Hne by (by intros ->).
  destruct (GSIntegrator_integrate_states g force B default_end_time name c
              (2%nat :: k :: s) states Hpos Hty Hcost Hloop Hne Hstates)
    as (result & g' & Hcall & Hy & Hrav').
  assert (uniform (2%nat :: k :: s) Bl) as [HBls HBlw].
  { rewrite last_lookup in Hlast. by eapply (Forall_lookup_1 _ _ _ _ Hstates). }
  set (P := mk_ndarray (k :: s) (take (k * m) (data Bl))).
  assert (solve {| integrator := FixedStep g |} metric tangent_vecs base_point
          = Ok (P, {| integrator := FixedStep g' |})) as Hsolve.
  { unfold solve. destruct Htv as [Hts _]. rewrite Hts.
    rewrite gs_broadcast_to_prepend by done. cbn [bind].
    fold s bpb. rewrite gs_stack_pair by done.
    change (stacked [bpb; tangent_vecs] (shape bpb)) with B.
    cbn [bind integrator integrate]. fold force. rewrite Hcall. cbn [bind].
    unfold _simplify_result, result_getattr. rewrite Hy. cbn [bind as_array].
    rewrite (getitem_stacked_last _ _ Bl) by done.
    cbn [bind integrator base_of]. rewrite Hrav', Hrav.
    pose proof (getitem_nat Bl 2 0 (k :: s) HBls) as H0.
    change (Z.of_nat 0) with 0 in H0. rewrite H0 by lia. cbn [bind].
    by rewrite drop_0. }
  exists P, {| integrator := FixedStep g' |}.
  split; [done|]. split; [done|]. intros i tv Hi Hget.
  rewrite (getitem_nat tangent_vecs k i s) in Hget by (done || apply Htv).
  injection Hget as <-. fold m.
  set (tv := mk_ndarray s (take m (drop (i * m) (data tangent_vecs)))).
  assert (Forall (uniform (2%nat :: s)) (map (batch_item i) states)) as Hstates_i.
  { apply Forall_forall. intros x Hx. apply list_elem_of_In, in_map_iff in Hx.
    destruct Hx as (x' & <- & Hx'). apply (batch_item_uniform i k s); [|done].
    apply list_elem_of_In in Hx'. by eapply (proj1 (Forall_forall _ _) Hstates). }
  specialize (Hitems i Hi). cbn [map] in Hitems.
  assert (map (batch_item i) states <> []) as Hne_i by (by destruct states).
  destruct (GSIntegrator_integrate_states g force (batch_item i B) default_end_time
              name c (2%nat :: s) (map (batch_item i) states)
              Hpos Hty Hcost Hitems Hne_i Hstates_i)
    as (result_i & g_i & Hcall_i & Hy_i & Hrav_i).
  assert (last (map (batch_item i) states) = Some (batch_item i Bl)) as Hlast_i.
  { change (map (batch_item i) states) with (batch_item i <$> states).
    by rewrite fmap_last, Hlast. }
  destruct (batch_item_uniform i k s Bl (conj HBls HBlw) Hi) as [HBlis _].
  exists (mk_ndarray s (take m (data (batch_item i Bl)))),
    {| integrator := FixedStep g_i |}.
  split.
  - unfold solve. change (shape tv) with (shape base_point).
    rewrite gs_broadcast_to_same by done. cbn [bind].
    rewrite gs_stack_pair by done. fold s.
    unfold B, bpb, s in Hcall_i. rewrite batch_item_initial in Hcall_i by done.
    fold s m in Hcall_i. fold tv in Hcall_i.
    cbn [bind integrator integrate]. fold force. rewrite Hcall_i. cbn [bind].
    unfold _simplify_result, result_getattr. rewrite Hy_i. cbn [bind as_array].
    rewrite (getitem_stacked_last _ _ (batch_item i Bl)) by done.
    cbn [bind integrator base_of]. rewrite Hrav_i, Hrav.
    pose proof (getitem_nat (batch_item i Bl) 2 0 s HBlis) as H0.
    change (Z.of_nat 0) with 0 in H0. rewrite H0 by lia. cbn [bind].
    by rewrite drop_0.
  - rewrite (getitem_nat P k i s) by done. do 2 f_equal. fold m.
    unfold P. cbn [data]. rewrite (batch_item_eq i k s Bl) by done. cbn [data].
    fold m. apply position_of_item; [|done].
    unfold well_formed in HBlw. by rewrite HBlw, HBls, size_of_batch.
Qed.

(** ** Facts used to run the statements *)

Lemma euler_step_shape_preserving (force : callable2) (s : list nat) :
  (forall st t, uniform s st ->
     exists d, force (PArr st) (PFloat t) = Ok d /\ uniform s d) ->
  shape_preserving euler_step force s.
Proof.
  intros Hforce st t dt Hs Hwf. unfold euler_step.
  destruct (Hforce st t (conj Hs Hwf)) as (d & -> & Hd). cbn [bind].
  destruct (arr_add_uniform s st (arr_scale dt d)) as (st' & Hst' & [? ?] & _);
    [done|by apply arr_scale_uniform|].
  by exists st'.
Qed.



Lemma velocity_of_item (m k i : nat) (d : list Qc) :
  length d = (2 * (k * m))%nat -> (i < k)%nat ->
  take m (drop (1 * m) (gather m k i d))
  = take m (drop (i * m) (take (k * m) (drop (1 * (k * m)) d))).
Proof.
  intros Hd Hi. unfold gather.
  rewrite drop_app_length' by (rewrite length_take, length_drop; nia).
  rewrite take_take, Nat.min_id.
  rewrite (take_drop_commute (take (k * m) _)), take_take.
  replace (Nat.min (i * m + m) (k * m)) with (i * m + m)%nat by nia.
  rewrite <- take_drop_commute, drop_drop. do 2 f_equal. lia.
Qed.

Lemma flat_metric_vectorised (k : nat) (s : list nat) :
  vectorised flat_geodesic_equation k s.
Proof.
  intros B t [HBs HBw]. unfold flat_geodesic_equation.
  set (m := size_of s).
  assert (length (data B) = (2 * (k * m))%nat) as Hlen
    by (by rewrite HBw, HBs, size_of_batch).
  pose proof (getitem_nat B 2 1 (k :: s) HBs) as H1.
  change (Z.of_nat 1) with 1 in H1. rewrite H1 by lia. cbn [bind].
  rewrite size_of_cons. fold m.
  set (V := mk_ndarray (k :: s) (take (k * m) (drop (1 * (k * m)) (data B)))).
  assert (uniform (k :: s) V) as HV.
  { split; [done|]. unfold well_formed, V. cbn [shape data].
    rewrite length_take, length_drop, size_of_cons. fold m. nia. }
  rewrite gs_stack_pair by done.
  eexists. split; [reflexivity|]. split.
  { split; [done|]. apply stacked_well_formed.
    constructor; [done|]. constructor; [apply zeros_uniform|constructor]. }
  intros i Hi.
  destruct (batch_item_uniform i k s B (conj HBs HBw) Hi) as [HBis HBiw].
  pose proof (getitem_nat (batch_item i B) 2 1 s HBis) as H1i.
  change (Z.of_nat 1) with 1 in H1i. rewrite H1i by lia. cbn [bind]. fold m.
  rewrite gs_stack_pair by done.
  f_equal. rewrite (batch_item_eq i k s (stacked _ _)) by done.
  unfold stacked, zeros_like. cbn [shape data map concat length zeros].
  f_equal. rewrite !app_nil_r. fold m.
  rewrite (batch_item_eq i k s B) by done. cbn [data]. fold m.
  rewrite velocity_of_item by done.
  unfold gather at 1. unfold V. cbn [data shape]. rewrite size_of_cons. fold m.
  assert (length (take (k * m) (drop (1 * (k * m)) (data B))) = (k * m)%nat) as HlenV.
  { rewrite length_take, length_drop. nia. }
  f_equal.
  - rewrite drop_app_le by (rewrite HlenV; nia).
    rewrite take_app_le by (rewrite length_drop, HlenV; nia). done.
  - rewrite drop_app_ge by (rewrite HlenV; nia). rewrite HlenV.
    rewrite drop_replicate, take_replicate. f_equal. nia.
Qed.


(** ** Further properties of the fixed-step integrator *)

(** X1. A result returned by the fixed-step [integrate] reports
    [nfev = FEVALS_PER_STEP[step_type] * n_steps]; in particular [integrate]
    returns only when the stepper is a name with an entry in
    [FEVALS_PER_STEP]. *)
Theorem integrate_reports_nfev (self self' : GSIntegrator) (force : callable2)
    (initial_state : ndarray) (end_time : Qc) (result : OdeResult) :
  GSIntegrator_integrate self force initial_state end_time = Ok (result, self') ->
  exists name c,
    step_type self = Some name
    /\ FEVALS_PER_STEP !! name = Some c
    /\ result !! "nfev" = Some (PInt (c * n_steps self)).
Proof.
  intros H. apply GSIntegrator_integrate_ok in H.
  destruct H as (dt & states & ts & nfev & y & _ & _ & _ & Hn & _ & -> & _).
  unfold _get_n_fevals in Hn. bind_inv Hn. injection Hn as <-.
  destruct (step_type self) as [name|] eqn:Hty; [|done].
  cbn [dict_getitem_opt] in Ha. unfold dict_getitem in Ha.
  destruct (FEVALS_PER_STEP !! name) as [c|] eqn:Hc; [|done].
  injection Ha as <-. exists name, c. by simplify_map_eq.
Qed.

Lemma integrate_cache_inv (i i' : integrator_obj) (force : callable2)
    (initial_state : ndarray) (end_time : Qc) (result : OdeResult) :
  save_result (base_of i) = true ->
  integrate i force initial_state end_time = Ok (result, i') ->
  result_ (base_of i') = Some result
  /\ save_result (base_of i') = true
  /\ state_is_raveled (base_of i') = state_is_raveled (base_of i)
  /\ tfirst (base_of i') = tfirst (base_of i)
  /\ match i, i' with
     | FixedStep g, FixedStep g' =>
         n_steps g' = n_steps g /\ _step_type g' = _step_type g
         /\ _step_function g' = _step_function g
     | Adaptive s, Adaptive s' =>
         method s' = method s /\ options s' = options s
     | _, _ => False
     end.
Proof.
  intros Hsv H. destruct i as [g|s]; cbn [integrate base_of] in *;
    bind_inv H; destruct a as [r x]; injection H as <- <-; cbn [base_of].
  - apply GSIntegrator_integrate_ok in Ha.
    destruct Ha as (dt & states & ts & nfev & y & _ & _ & _ & _ & _ & _ & ->).
    rewrite Hsv. cbn. by rewrite Hsv.
  - unfold SCPSolveIVP_integrate in Ha.
    bind_inv Ha. bind_inv Ha. bind_inv Ha. bind_inv Ha.
    rewrite Hsv in Ha. injection Ha as <- <-. cbn. by rewrite Hsv.
Qed.

(** X2. With [save_result = True], a call to [integrate] that returns stores
    the returned result in [result_], replacing what was there, and changes
    nothing else of the integrator. *)
Theorem integrate_caches_result (i i' : integrator_obj) (force : callable2)
    (initial_state : ndarray) (end_time : Qc) (result : OdeResult) :
  save_result (base_of i) = true ->
  integrate i force initial_state end_time = Ok (result, i') ->
  result_ (base_of i') = Some result
  /\ save_result (base_of i') = true
  /\ state_is_raveled (base_of i') = state_is_raveled (base_of i)
  /\ tfirst (base_of i') = tfirst (base_of i)
  /\ match i, i' with
     | FixedStep g, FixedStep g' =>
         n_steps g' = n_steps g /\ _step_type g' = _step_type g
         /\ _step_function g' = _step_function g
     | Adaptive s, Adaptive s' =>
         method s' = method s /\ options s' = options s
     | _, _ => False
     end.
Proof. apply integrate_cache_inv. Qed.

(** X3. A non-positive [n_steps]: with [n_steps = 0] the call raises
    [ZeroDivisionError]; with [n_steps < -1] it raises [ValueError] (no time
    grid of negative length); with [n_steps = -1] a call that returns gives
    an empty time sequence beside a state array holding the initial state
    alone. In none of the three cases is the stepper or the vector field
    evaluated. *)
Theorem integrate_nonpositive_n_steps (self : GSIntegrator) (force : callable2)
    (initial_state : ndarray) (end_time : Qc) :
  (n_steps self = 0 ->
   GSIntegrator_integrate self force initial_state end_time
   = Raise ZeroDivisionError)
  /\ (n_steps self < -1 ->
      GSIntegrator_integrate self force initial_state end_time = Raise ValueError)
  /\ (n_steps self = -1 ->
      forall result self',
        GSIntegrator_integrate self force initial_state end_time
        = Ok (result, self') ->
        result !! "t" = Some (PArr (mk_ndarray [0%nat] []))
        /\ result !! "y"
           = Some (PArr (stacked [initial_state] (shape initial_state)))).
Proof.
  split; [|split].
  - intros Hn. unfold GSIntegrator_integrate, py_div. by rewrite Hn.
  - intros Hn. unfold GSIntegrator_integrate.
    rewrite py_div_nonzero by lia. cbn [bind].
    unfold py_range. replace (Z.to_nat (n_steps self)) with 0%nat by lia.
    cbn [seq integrate_loop bind]. unfold gs_linspace.
    by rewrite decide_True by lia.
  - intros Hn result self' H. apply GSIntegrator_integrate_ok in H.
    destruct H as (dt & states & ts & nfev & y & _ & Hloop & Hts & _ & Hy & -> & _).
    rewrite Hn in Hloop, Hts. cbn in Hloop. injection Hloop as <-.
    unfold gs_linspace in Hts. cbn in Hts. injection Hts as <-.
    unfold gs_array in Hy. cbn [forallb] in Hy. unfold same_shape_as in Hy.
    rewrite bool_decide_true in Hy by done. cbn in Hy. injection Hy as <-.
    split; by simplify_map_eq.
Qed.

Lemma integrate_loop_chain (self : GSIntegrator) (force : callable2) (dt : Qc)
    (a len : nat) (current_state : ndarray) (states states' : list ndarray) :
  integrate_loop self force dt (seq a len) current_state states = Ok states' ->
  exists new,
    states' = states ++ new
    /\ length new = len
    /\ (forall j, (j < len)%nat ->
          exists prev next,
            (current_state :: new) !! j = Some prev
            /\ new !! j = Some next
            /\ step self force prev (Qc_of_Z (Z.of_nat (a + j)) * dt)%Qc dt
               = Ok next).
Proof.
  revert a current_state states.
  induction len as [|len IH]; intros a cur states H; cbn [seq integrate_loop] in H.
  - injection H as <-. exists []. rewrite app_nil_r. split; [done|].
    split; [done|]. intros j Hj. lia.
  - bind_inv H. destruct (IH _ _ _ H) as (new & -> & Hlen & Hchain).
    exists (a0 :: new). rewrite <- app_assoc. split; [done|].
    split; [by cbn; rewrite Hlen|].
    intros [|j] Hj.
    + exists cur, a0. rewrite Nat.add_0_r. done.
    + destruct (Hchain j) as (prev & next & Hp & Hn & Hs); [lia|].
      exists prev, next. split; [done|]. split; [done|].
      by replace (a + S j)%nat with (S a + j)%nat by lia.
Qed.

(** X4. The trajectory of a call that returns: the state array stacks
    [n_steps + 1] states, the first is the initial state, and state [i + 1]
    is the stepper applied to state [i] at time [i * dt] with
    [dt = end_time / n_steps], which is the [i]-th point of the returned time
    sequence; the last state [y[-1]] can always be read. *)
Theorem integrate_trajectory_recurrence (self self' : GSIntegrator)
    (force : callable2) (initial_state : ndarray) (end_time : Qc)
    (result : OdeResult) :
  GSIntegrator_integrate self force initial_state end_time = Ok (result, self') ->
  exists dt states ts y,
    py_div end_time (n_steps self) = Ok dt
    /\ result !! "t" = Some (PArr ts)
    /\ result !! "y" = Some (PArr y)
    /\ gs_array states = Ok y
    /\ length states = S (Z.to_nat (n_steps self))
    /\ states !! 0%nat = Some initial_state
    /\ (forall i, (i < Z.to_nat (n_steps self))%nat ->
          exists prev next,
            states !! i = Some prev
            /\ states !! S i = Some next
            /\ data ts !! i = Some (Qc_of_Z (Z.of_nat i) * dt)%Qc
            /\ step self force prev (Qc_of_Z (Z.of_nat i) * dt)%Qc dt = Ok next)
    /\ (exists last_state, getitem y (-1) = Ok last_state).
Proof.
  intros H. apply GSIntegrator_integrate_ok in H.
  destruct H as (dt & states & ts & nfev & y & Hdt & Hloop & Hts & _ & Hy & -> & _).
  unfold py_range in Hloop.
  destruct (integrate_loop_chain _ _ _ _ _ _ _ _ Hloop) as (new & -> & Hlen & Hchain).
  exists dt, ([initial_state] ++ new), ts, y.
  split; [done|]. split; [by simplify_map_eq|]. split; [by simplify_map_eq|].
  split; [done|]. split; [by cbn; rewrite Hlen|]. split; [done|]. split.
  - intros i Hi. destruct (Hchain i Hi) as (prev & next & Hp & Hn & Hs).
    exists prev, next. split; [done|]. split; [done|]. split; [|done].
    assert (0 < n_steps self) as Hpos by lia.
    destruct (gs_linspace_spec end_time (n_steps self) Hpos) as (ts' & Hts' & _ & _ & Hgrid).
    rewrite Hts in Hts'. injection Hts' as <-.
    rewrite Hgrid by lia. unfold py_div in Hdt.
    rewrite decide_False in Hdt by lia. by injection Hdt as <-.
  - unfold gs_array in Hy. cbn [app] in Hy.
    destruct (forallb (same_shape_as initial_state) (initial_state :: new)); [|done].
    injection Hy as <-. eexists. by apply (getitem_last _ (length new)).
Qed.

Lemma set_step_type_inv (self self' : GSIntegrator)
    (value : step_type_value) :
  set_step_type self value = Ok self' ->
  gs_base self' = gs_base self
  /\ n_steps self' = n_steps self
  /\ match value with
     | StepCallable f =>
         step_type self' = None
         /\ (forall force state t dt,
               step self' force state t dt = f force state t dt)
     | StepName name =>
         step_type self' = Some name
         /\ exists fname r,
              STEP_FUNCTIONS !! name = Some fname
              /\ integrator_module !! fname = Some r
              /\ (forall force state t dt,
                    step self' force state t dt
                    = rule_function r force state t dt)
     end.
Proof.
  unfold set_step_type. intros H. bind_inv H. destruct a as [sf v].
  injection H as <-. cbn [gs_base n_steps]. split; [done|]. split; [done|].
  destruct value as [f|name]; cbn [step_type_setter_values] in Ha.
  - by injection Ha as <- <-.
  - bind_inv Ha. bind_inv Ha. bind_inv Ha. injection Ha as <- <-.
    unfold dict_getitem in Ha1.
    destruct (STEP_FUNCTIONS !! name) as [fname|] eqn:Hname; [|done].
    injection Ha1 as <-. unfold module_getattr in Ha2.
    destruct (integrator_module !! fname) as [r|] eqn:Hr; [|done].
    injection Ha2 as <-. split; [done|]. by exists fname, r.
Qed.

(** X5. An assignment to [step_type] that succeeds changes the stepper and
    nothing else: after a callable the getter returns [None] and [step] calls
    that callable; after a name the getter returns the name and [step] calls
    the function the module defines under [STEP_FUNCTIONS[name]]. *)
Theorem step_type_setter_roundtrip (self self' : GSIntegrator)
    (value : step_type_value) :
  set_step_type self value = Ok self' ->
  gs_base self' = gs_base self
  /\ n_steps self' = n_steps self
  /\ match value with
     | StepCallable f =>
         step_type self' = None
         /\ (forall force state t dt,
               step self' force state t dt = f force state t dt)
     | StepName name =>
         step_type self' = Some name
         /\ exists fname r,
              STEP_FUNCTIONS !! name = Some fname
              /\ integrator_module !! fname = Some r
              /\ (forall force state t dt,
                    step self' force state t dt
                    = rule_function r force state t dt)
     end.
Proof. apply set_step_type_inv. Qed.

(** X6. A name that [STEP_FUNCTIONS] registers under a function name the
    module does not define is refused with [AttributeError], by the
    constructor and by the setter. *)
Theorem dangling_step_function_raises (name fname : string)
    (self : GSIntegrator) (n : option Z) (sv : option bool) :
  STEP_FUNCTIONS !! name = Some fname ->
  integrator_module !! fname = None ->
  GSIntegrator_init n (Some (StepName name)) sv = Raise AttributeError
  /\ set_step_type self (StepName name) = Raise AttributeError.
Proof.
  intros Hname Hf.
  assert (step_type_setter_values (StepName name) = Raise AttributeError) as Hset.
  { unfold step_type_setter_values, check_parameter_accepted_values.
    rewrite decide_True by (rewrite Hname; eauto). cbn [bind].
    unfold dict_getitem. rewrite Hname. cbn [bind].
    unfold module_getattr. by rewrite Hf. }
  unfold GSIntegrator_init, set_step_type. cbn [from_option id].
  by rewrite Hset.
Qed.

(** X7. Whatever calls to [integrate] and assignments to [step_type] follow
    the construction of a fixed-step integrator, it works on structured
    states in the state-first convention, keeps the [n_steps] and the
    [save_result] it was built with, holds a cached result only if
    [save_result] is true, and a stepper name it holds is registered, with
    [step] calling the function registered for it. *)
Theorem GSIntegrator_invariant (n : option Z) (sv : option bool)
    (g : GSIntegrator) :
  GS_reachable n sv g ->
  state_is_raveled (gs_base g) = false
  /\ tfirst (gs_base g) = false
  /\ n_steps g = default 10 n
  /\ save_result (gs_base g) = default false sv
  /\ (is_Some (result_ (gs_base g)) -> save_result (gs_base g) = true)
  /\ (forall name, step_type g = Some name ->
        exists fname r,
          STEP_FUNCTIONS !! name = Some fname
          /\ integrator_module !! fname = Some r
          /\ _step_function g = rule_function r).
Proof.
  induction 1 as [st g Hinit|g g' force s0 T result _ IH Hcall|g g' value _ IH Hset].
  - unfold GSIntegrator_init in Hinit. bind_inv Hinit. destruct a as [sf v].
    injection Hinit as <-. cbn. do 4 (split; [done|]). split.
    { by intros [? ?]. }
    intros name [= ->].
    destruct (default (StepName "euler") st) as [f|name'];
      cbn [step_type_setter_values] in Ha; [by injection Ha|].
    bind_inv Ha. bind_inv Ha. bind_inv Ha. injection Ha as <- <-.
    unfold dict_getitem in Ha1.
    destruct (STEP_FUNCTIONS !! name') as [fname|] eqn:Hname; [|done].
    injection Ha1 as <-. unfold module_getattr in Ha2.
    destruct (integrator_module !! fname) as [r|] eqn:Hr; [|done].
    injection Ha2 as <-. by exists fname, r.
  - destruct IH as (H1 & H2 & H3 & H4 & H5 & H6).
    apply GSIntegrator_integrate_ok in Hcall.
    destruct Hcall as (dt & states & ts & nfev & y & _ & _ & _ & _ & _ & _ & ->).
    destruct (save_result (gs_base g)) eqn:Hsv; [|by rewrite Hsv].
    cbn. by rewrite Hsv.
  - destruct IH as (H1 & H2 & H3 & H4 & H5 & H6).
    destruct (set_step_type_inv g g' value Hset) as (Hb & Hn & Hv).
    rewrite Hb, Hn. do 5 (split; [done|]).
    intros name Hname. destruct value as [f|name'].
    + destruct Hv as [Hnone _]. congruence.
    + destruct Hv as [Hsome _]. assert (name' = name) as -> by congruence.
      unfold set_step_type in Hset. bind_inv Hset. destruct a as [sf v].
      injection Hset as <-. cbn [_step_function].
      cbn [step_type_setter_values] in Ha.
      bind_inv Ha. bind_inv Ha. bind_inv Ha. injection Ha as <- _.
      unfold dict_getitem in Ha1.
      destruct (STEP_FUNCTIONS !! name) as [fname|] eqn:Hreg; [|done].
      injection Ha1 as <-. unfold module_getattr in Ha2.
      destruct (integrator_module !! fname) as [r|] eqn:Hr; [|done].
      injection Ha2 as <-. by exists fname, r.
Qed.

(** X8. Whatever calls to [integrate] follow the construction of the
    adaptive adapter, it works on raveled states in the time-first
    convention, keeps the method, the options and the [save_result] it was
    built with, and holds a cached result only if [save_result] is true. *)
Theorem SCPSolveIVP_invariant (m : option string) (sv : option bool)
    (opts : gmap string pyval) (s : SCPSolveIVP) :
  SCP_reachable m sv opts s ->
  state_is_raveled (scp_base s) = true
  /\ tfirst (scp_base s) = true
  /\ method s = default "RK45" m
  /\ options s = opts
  /\ save_result (scp_base s) = default false sv
  /\ (is_Some (result_ (scp_base s)) -> save_result (scp_base s) = true).
Proof.
  induction 1 as [|s s' force s0 T result _ IH Hcall].
  - cbn. do 5 (split; [done|]). by intros [? ?].
  - destruct IH as (H1 & H2 & H3 & H4 & H5 & H6).
    unfold SCPSolveIVP_integrate in Hcall.
    bind_inv Hcall. bind_inv Hcall. bind_inv Hcall. bind_inv Hcall.
    destruct (save_result (scp_base s)) eqn:Hsv; injection Hcall as <- <-;
      [|by rewrite Hsv in *].
    cbn. rewrite Hsv. by rewrite <- H5.
Qed.

(** ** Further properties of the exponential-map solver *)

Lemma _force_raveled_state_structured (metric : metric_obj) (p v : ndarray)
    (t : pyval) :
  uniform [dim metric] p -> uniform [dim metric] v ->
  _force_raveled_state (PArr (gs_flatten (stacked [p; v] [dim metric]))) t metric
  = bind (geodesic_equation metric (PArr (stacked [p; v] [dim metric])) t)
      (fun eq => Ok (gs_flatten eq)).
Proof.
  intros [Hps Hpw] [Hvs Hvw].
  assert (length (data p) = dim metric) as Hlp
    by (by rewrite Hpw, Hps, size_of_singleton).
  assert (length (data v) = dim metric) as Hlv
    by (by rewrite Hvw, Hvs, size_of_singleton).
  unfold _force_raveled_state. cbn [bind as_array].
  unfold slice_to, slice_from, gs_flatten, stacked.
  cbn [shape data map concat length]. rewrite app_nil_r.
  rewrite length_app, Hlp, Hlv.
  replace (Nat.min (dim metric) (dim metric + dim metric)) with (dim metric) by lia.
  rewrite size_of_nil_mul. cbn [bind].
  rewrite take_app_length' by done. rewrite drop_app_length' by done.
  replace (dim metric + dim metric - dim metric)%nat with (dim metric) by lia.
  assert ({| shape := [dim metric]; data := data p |} = p) as ->
    by (by apply ndarray_eq).
  assert ({| shape := [dim metric]; data := data v |} = v) as ->
    by (by apply ndarray_eq).
  rewrite gs_stack_pair by congruence. rewrite Hps. cbn [bind].
  unfold stacked. cbn [length map concat]. by rewrite app_nil_r.
Qed.

(** X9. The two force adapters integrate the same vector field: for a
    position and a velocity of [dim] entries each, the force handed to the
    adaptive adapter, called as [(t, flat state)] on the raveled state, is
    the flattening of the force handed to a fixed-step integrator, called as
    [(state, t)] on the structured state. *)
Theorem raveled_force_agrees_with_structured (metric : metric_obj)
    (n : option Z) (st : option step_type_value) (sv : option bool)
    (g : GSIntegrator) (m : option string) (sv' : option bool)
    (opts : gmap string pyval) (p v : ndarray) (t : Qc) :
  GSIntegrator_init n st sv = Ok g ->
  uniform [dim metric] p -> uniform [dim metric] v ->
  _get_force {| integrator := Adaptive (SCPSolveIVP_init m sv' opts) |} metric
    (PFloat t) (PArr (gs_flatten (stacked [p; v] [dim metric])))
  = bind (_get_force {| integrator := FixedStep g |} metric
            (PArr (stacked [p; v] [dim metric])) (PFloat t))
      (fun eq => Ok (gs_flatten eq)).
Proof.
  intros Hinit Hp Hv.
  assert (state_is_raveled (gs_base g) = false /\ tfirst (gs_base g) = false)
    as [Hrav Htf].
  { unfold GSIntegrator_init in Hinit. bind_inv Hinit. destruct a as [sf x].
    by injection Hinit as <-. }
  unfold _get_force. cbn [integrator base_of]. rewrite Hrav, Htf.
  cbn [SCPSolveIVP_init scp_base ODEIVPSolver_init state_is_raveled tfirst
       from_option id].
  by apply _force_raveled_state_structured.
Qed.

(** X10. The raveled force adapter takes the first [dim] entries of the
    flat state as the position and all the others as the velocity: on a flat
    state whose length is neither [2 * dim] nor 0 the two cannot be stacked
    and the adapter raises [ValueError], whatever the metric. *)
Theorem raveled_force_rejects_other_lengths (metric : metric_obj)
    (flat : ndarray) (n : nat) (t : pyval) :
  shape flat = [n] ->
  n <> 0%nat ->
  n <> (2 * dim metric)%nat ->
  _force_raveled_state (PArr flat) t metric = Raise ValueError.
Proof.
  intros Hs Hn0 Hn.
  unfold _force_raveled_state. cbn [bind as_array].
  unfold slice_to, slice_from. rewrite Hs. cbn [bind].
  unfold gs_stack, gs_array. cbn [forallb]. unfold same_shape_as. cbn [shape].
  rewrite (bool_decide_true ([Nat.min (dim metric) n] = [Nat.min (dim metric) n]))
    by done.
  rewrite bool_decide_false; [done|]. intros [= Heq]. lia.
Qed.

(** X11. [ExpODESolver()] wraps [GSIntegrator()]: ten Euler steps on
    structured states in the state-first convention, nothing cached, and the
    force it hands to the integrator is the metric's [geodesic_equation]
    itself; the construction raises [InvalidConfiguration] when ["euler"] is
    not registered. A given integrator is wrapped as it is. *)
Theorem default_solver_is_ten_step_euler (i : integrator_obj) :
  (STEP_FUNCTIONS !! "euler" = None ->
   ExpODESolver_init None = Raise InvalidConfiguration)
  /\ (forall self, ExpODESolver_init None = Ok self ->
        exists g,
          integrator self = FixedStep g
          /\ n_steps g = 10
          /\ step_type g = Some "euler"
          /\ gs_base g = {| state_is_raveled := false; tfirst := false;
                            save_result := false; result_ := None |}
          /\ (forall metric state t,
                _get_force self metric state t
                = geodesic_equation metric state t))
  /\ ExpODESolver_init (Some i) = Ok {| integrator := i |}.
Proof.
  split; [|split; [|done]].
  - intros Hname. unfold ExpODESolver_init.
    unfold GSIntegrator_init. cbn [from_option id].
    unfold step_type_setter_values, check_parameter_accepted_values.
    rewrite Hname. rewrite decide_False; [done|]. by intros [? ?].
  - intros self H. unfold ExpODESolver_init in H. bind_inv H.
    injection H as <-.
    destruct (GSIntegrator_init_named None "euler" None a Ha)
      as (fname & r & _ & _ & ->).
    eexists. split; [reflexivity|]. cbn. done.
Qed.

Lemma integrate_frame_inv (i i' : integrator_obj) (force : callable2)
    (initial_state : ndarray) (end_time : Qc) (result : OdeResult) :
  save_result (base_of i) = false ->
  integrate i force initial_state end_time = Ok (result, i') ->
  i' = i.
Proof.
  intros Hsv H. destruct i as [g|s]; cbn [integrate base_of] in *; bind_inv H;
    destruct a as [r x]; injection H as <- <-; f_equal.
  - by eapply GSIntegrator_integrate_frame.
  - by eapply SCPSolveIVP_integrate_frame.
Qed.

(** X12. What [solve] does to the solver: when the integrator does not save
    results the solver is the same after the call; when it does, the
    integrator is the same but for [result_], which then holds the
    trajectory from whose last state the returned point was read. *)
Theorem solve_updates_only_cache (self self' : ExpODESolver)
    (metric : metric_obj) (tangent_vec base_point point : ndarray) :
  solve self metric tangent_vec base_point = Ok (point, self') ->
  (save_result (base_of (integrator self)) = false -> self' = self)
  /\ (save_result (base_of (integrator self)) = true ->
      exists result,
        result_ (base_of (integrator self')) = Some result
        /\ _simplify_result self' result metric = Ok point
        /\ state_is_raveled (base_of (integrator self'))
           = state_is_raveled (base_of (integrator self))
        /\ tfirst (base_of (integrator self'))
           = tfirst (base_of (integrator self))).
Proof.
  unfold solve. intros H. bind_inv H. bind_inv H. bind_inv H.
  destruct a1 as [result integ']. bind_inv H. injection H as <- <-.
  split; intros Hsv.
  - destruct self as [i]. cbn [integrator] in *. f_equal.
    by eapply integrate_frame_inv.
  - exists result. cbn [integrator].
    destruct (integrate_cache_inv _ _ _ _ _ _ Hsv Ha1) as (Hc & _ & Hr & Ht & _).
    done.
Qed.

(** X13. The adaptive adapter sees the initial state only through its
    flattening: two initial states with the same elements in row-major order
    give the same outcome, whatever their shapes. *)
Theorem adaptive_integrate_ignores_shape (self : SCPSolveIVP) (force : callable2)
    (initial_state initial_state' : ndarray) (end_time : Qc) :
  data initial_state' = data initial_state ->
  SCPSolveIVP_integrate self force initial_state' end_time
  = SCPSolveIVP_integrate self force initial_state end_time.
Proof.
  intros Hdata. unfold SCPSolveIVP_integrate, gs_flatten. by rewrite Hdata.
Qed.

(** X14. [solve] sees the base point only through its broadcast to the
    tangent vector's shape: solving with the base point and solving with the
    array it broadcasts to have the same outcome. *)
Theorem solve_of_broadcast_base_point (self : ExpODESolver) (metric : metric_obj)
    (tangent_vec base_point bp : ndarray) :
  gs_broadcast_to base_point (shape tangent_vec) = Ok bp ->
  well_formed bp ->
  solve self metric tangent_vec bp = solve self metric tangent_vec base_point.
Proof.
  intros Hbp Hwf. unfold solve. rewrite Hbp.
  rewrite <- (gs_broadcast_to_shape _ _ _ Hbp).
  by rewrite gs_broadcast_to_same.
Qed.

(** X15. Assignments to [step_type] do not accumulate: after a successful
    assignment, a second one has the outcome it would have had on the
    integrator as it was before the first. *)
Theorem step_type_last_assignment_wins (self self1 : GSIntegrator)
    (value1 value2 : step_type_value) :
  set_step_type self value1 = Ok self1 ->
  set_step_type self1 value2 = set_step_type self value2.
Proof.
  intros H. destruct (set_step_type_inv self self1 value1 H) as (Hb & Hn & _).
  unfold set_step_type. by rewrite Hb, Hn.
Qed.

End Solvers.

(** ** The statements on the sample collaborators *)

Lemma sample_integrator_init :
  GSIntegrator_init sample_STEP_FUNCTIONS sample_module (Some 4) None None
  = Ok sample_integrator.
Proof. reflexivity. Qed.

Lemma sample_rk2_integrator_init :
  GSIntegrator_init sample_STEP_FUNCTIONS sample_module (Some 4)
    (Some (StepName "rk2")) None
  = Ok sample_rk2_integrator.
Proof. reflexivity. Qed.

(** C2 at a concrete input: [GSIntegrator(n_steps=4, step_type=idle_step)]
    is constructed, and its [integrate] raises [KeyError]. *)
Lemma custom_stepper_KeyError_example :
  exists g,
    GSIntegrator_init sample_STEP_FUNCTIONS sample_module (Some 4)
      (Some (StepCallable idle_step)) None = Ok g
    /\ GSIntegrator_integrate sample_FEVALS_PER_STEP g zero_field
         (int_array [2%nat] [3; 4]) 1%Qc = Raise KeyError.
Proof. eexists. split; [reflexivity|]. vm_compute. reflexivity. Qed.

Lemma unregistered_step_type_raises_witness :
  sample_STEP_FUNCTIONS !! "rk45" = None
  /\ GSIntegrator_init sample_STEP_FUNCTIONS sample_module None
       (Some (StepName "rk45")) None = Raise InvalidConfiguration
  /\ set_step_type sample_STEP_FUNCTIONS sample_module sample_integrator
       (StepName "rk45") = Raise InvalidConfiguration.
Proof.
  split; [reflexivity|].
  apply (unregistered_step_type_raises sample_STEP_FUNCTIONS sample_module
           "rk45" sample_integrator None None).
  reflexivity.
Defined.

Lemma fixed_step_result_flags_witness :
  exists result self',
    GSIntegrator_integrate sample_FEVALS_PER_STEP sample_integrator
      constant_field (int_array [2%nat] [3; 4]) 1%Qc = Ok (result, self')
    /\ result !! "njev" = Some (PInt 0)
    /\ result !! "success" = None
    /\ result !! "sucess" = Some (PBool true).
Proof.
  eexists _, _.
  refine ((fun H => conj H (fixed_step_result_flags _ _ _ _ _ _ _ H)) _).
  vm_compute. reflexivity.
Defined.

Lemma integrate_without_save_result_frame_witness :
  save_result (base_of (FixedStep sample_integrator)) = false
  /\ save_result (base_of (Adaptive sample_adapter)) = false
  /\ (exists result i',
        integrate sample_FEVALS_PER_STEP one_step_solve_ivp "numpy"
          (FixedStep sample_integrator) constant_field
          (int_array [2%nat] [3; 4]) 1%Qc = Ok (result, i')
        /\ i' = FixedStep sample_integrator)
  /\ (exists result i',
        integrate sample_FEVALS_PER_STEP one_step_solve_ivp "numpy"
          (Adaptive sample_adapter) zero_field_tfirst
          (int_array [2%nat] [3; 4]) 1%Qc = Ok (result, i')
        /\ i' = Adaptive sample_adapter).
Proof.
  split; [reflexivity|]. split; [reflexivity|]. split.
  - eexists _, _.
    refine ((fun H => conj H
               (proj1 (integrate_without_save_result_frame sample_STEP_FUNCTIONS
                         sample_FEVALS_PER_STEP sample_module one_step_solve_ivp
                         "numpy" (FixedStep sample_integrator) _ constant_field
                         (int_array [2%nat] [3; 4]) 1%Qc _ eq_refl H))) _).
    vm_compute. reflexivity.
  - eexists _, _.
    refine ((fun H => conj H
               (proj1 (integrate_without_save_result_frame sample_STEP_FUNCTIONS
                         sample_FEVALS_PER_STEP sample_module one_step_solve_ivp
                         "numpy" (Adaptive sample_adapter) _ zero_field_tfirst
                         (int_array [2%nat] [3; 4]) 1%Qc _ eq_refl H))) _).
    vm_compute. reflexivity.
Defined.

Lemma integrate_time_grid_and_states_witness :
  0 < n_steps sample_integrator
  /\ exists result self' ts y,
       GSIntegrator_integrate sample_FEVALS_PER_STEP sample_integrator
         constant_field (int_array [2%nat] [3; 4]) 1%Qc = Ok (result, self')
       /\ result !! "t" = Some (PArr ts)
       /\ result !! "y" = Some (PArr y)
       /\ shape ts = [5%nat]
       /\ length (data ts) = 5%nat
       /\ (forall i : nat, Z.of_nat i <= 4 ->
             data ts !! i = Some (Qc_of_Z (Z.of_nat i) * (1 / Qc_of_Z 4))%Qc)
       /\ data ts !! 0%nat = Some 0%Qc
       /\ last (data ts) = Some 1%Qc
       /\ shape y = [5%nat; 2%nat]
       /\ well_formed y
       /\ getitem y 0 = Ok (int_array [2%nat] [3; 4]).
Proof.
  split; [reflexivity|].
  apply (integrate_time_grid_and_states sample_FEVALS_PER_STEP sample_integrator
           constant_field (int_array [2%nat] [3; 4]) 1%Qc "euler" 1).
  - reflexivity.
  - reflexivity.
  - reflexivity.
  - reflexivity.
  - apply euler_step_shape_preserving. intros st t _.
    exists (int_array [2%nat] [1; 2]). split; [reflexivity|]. split; reflexivity.
Defined.

Lemma zero_field_trajectory_constant_witness :
  sample_FEVALS_PER_STEP !! "rk2" = Some 2
  /\ exists result g' y,
       GSIntegrator_integrate sample_FEVALS_PER_STEP sample_rk2_integrator
         zero_field (int_array [2%nat] [3; 4]) 1%Qc = Ok (result, g')
       /\ result !! "y" = Some (PArr y)
       /\ shape y = [5%nat; 2%nat]
       /\ (forall i : nat, Z.of_nat i <= 4 ->
             getitem y (Z.of_nat i) = Ok (int_array [2%nat] [3; 4])).
Proof.
  split; [reflexivity|].
  apply (zero_field_trajectory_constant sample_STEP_FUNCTIONS
           sample_FEVALS_PER_STEP sample_module "rk2" 2 (Some 4) None
           sample_rk2_integrator (int_array [2%nat] [3; 4]) 1%Qc);
    reflexivity.
Defined.




Lemma batched_solve_consistent_witness :
  uniform [2%nat; 2%nat] (int_array [2%nat; 2%nat] [3; 4; 5; 6])
  /\ batch_consistent
       (solve sample_FEVALS_PER_STEP one_step_solve_ivp "numpy"
          {| integrator := FixedStep sample_integrator |} flat_metric)
       (int_array [2%nat; 2%nat] [3; 4; 5; 6]) (int_array [2%nat] [1; 2]) 2.
Proof.
  split; [split; reflexivity|].
  apply (batched_solve_consistent sample_STEP_FUNCTIONS sample_FEVALS_PER_STEP
           sample_module one_step_solve_ivp "numpy" flat_metric "euler" 1
           (Some 4) None sample_integrator (int_array [2%nat] [1; 2])
           (int_array [2%nat; 2%nat] [3; 4; 5; 6]) 2).
  - reflexivity.
  - reflexivity.
  - reflexivity.
  - apply flat_metric_vectorised.
  - reflexivity.
  - split; reflexivity.
Defined.

Lemma adaptive_result_is_transposed_witness :
  exists raw y_raw result self' y,
    one_step_solve_ivp
      (fun t state => zero_field_tfirst (PFloat t) (PArr state)) (0%Qc, 1%Qc)
      (gs_flatten (int_array [3%nat] [1; 2; 3])) (method sample_adapter)
      (options sample_adapter) = Ok raw
    /\ raw !! "y" = Some (PArr y_raw)
    /\ shape y_raw = [3%nat; 2%nat]
    /\ values y_raw = map inject_Z [1; 1; 2; 2; 3; 3]
    /\ SCPSolveIVP_integrate one_step_solve_ivp "numpy" sample_adapter
         zero_field_tfirst (int_array [3%nat] [1; 2; 3]) 1%Qc = Ok (result, self')
    /\ result !! "y" = Some (PArr y)
    /\ shape y = [2%nat; 3%nat]
    /\ values y = map inject_Z [1; 2; 3; 1; 2; 3]
    /\ (forall i j, (i < 2)%nat -> (j < 3)%nat -> entry2 y i j = entry2 y_raw j i).
Proof.
  assert (exists raw y_raw,
            one_step_solve_ivp
              (fun t state => zero_field_tfirst (PFloat t) (PArr state))
              (0%Qc, 1%Qc) (gs_flatten (int_array [3%nat] [1; 2; 3]))
              (method sample_adapter) (options sample_adapter) = Ok raw
            /\ raw !! "y" = Some (PArr y_raw)
            /\ shape y_raw = [3%nat; 2%nat]
            /\ values y_raw = map inject_Z [1; 1; 2; 2; 3; 3])
    as (raw & y_raw & Hr1 & Hr2 & Hr3 & Hr4).
  { eexists _, _. split; [vm_compute; reflexivity|].
    split; [vm_compute; reflexivity|]. split; [reflexivity|].
    vm_compute. reflexivity. }
  destruct (adaptive_result_is_transposed one_step_solve_ivp "numpy"
              sample_adapter zero_field_tfirst (int_array [3%nat] [1; 2; 3]) 1%Qc
              raw y_raw 3 2 Hr1 Hr2 Hr3)
    as (result & self' & y & H1 & H2 & H3 & H4 & _).
  exists raw, y_raw, result, self', y.
  do 4 (split; [done|]). split; [exact H1|]. split; [exact H2|].
  split; [exact H3|]. split; [|exact H4].
  vm_compute in H1. injection H1 as <- _. vm_compute in H2.
  injection H2 as <-. vm_compute. reflexivity.
Defined.

(** C3 as stated fails: for a state of three components the external solver
    returns a 3 by 2 array for two time points; in the returned result the
    last axis of the state array has length 3, the number of components, and
    the time points run along the first axis. *)
Lemma adaptive_time_axis_not_last :
  exists result self',
    SCPSolveIVP_integrate one_step_solve_ivp "numpy" sample_adapter
      zero_field_tfirst (int_array [3%nat] [1; 2; 3]) 1%Qc = Ok (result, self')
    /\ ~ time_axis_is_last result.
Proof.
  eexists _, _. split; [vm_compute; reflexivity|].
  intros (t & y & Ht & Hy & Hlast).
  vm_compute in Ht. injection Ht as <-.
  vm_compute in Hy. injection Hy as <-.
  vm_compute in Hlast. discriminate.
Qed.

(** On the raveled path the batched call raises: the force adapter takes
    the first [dim] entries of the flat state as the position and all the
    others as the velocity, and the two cannot be stacked. *)
Lemma batched_solve_raveled_raises :
  solve sample_FEVALS_PER_STEP one_step_solve_ivp "numpy"
    {| integrator := Adaptive sample_adapter |} flat_metric
    (int_array [2%nat; 2%nat] [3; 4; 5; 6]) (int_array [2%nat] [1; 2])
  = Raise ValueError.
Proof. vm_compute. reflexivity. Qed.

(** C8 as stated fails around the adaptive adapter: for one base point and
    two tangent vectors of the plane, [solve] does not return two points. *)
Lemma batched_solve_raveled_inconsistent :
  ~ batch_consistent
      (solve sample_FEVALS_PER_STEP one_step_solve_ivp "numpy"
         {| integrator := Adaptive sample_adapter |} flat_metric)
      (int_array [2%nat; 2%nat] [3; 4; 5; 6]) (int_array [2%nat] [1; 2]) 2.
Proof.
  intros (points & self' & Hsolve & _).
  rewrite batched_solve_raveled_raises in Hsolve. discriminate.
Qed.

Lemma solve_delegates_to_integrator_witness :
  (exists point self',
     solve sample_FEVALS_PER_STEP one_step_solve_ivp "numpy"
       {| integrator := FixedStep sample_integrator |} flat_metric
       (int_array [2%nat] [3; 4]) (int_array [2%nat] [1; 2]) = Ok (point, self')
     /\ shape point = [2%nat] /\ values point = map inject_Z [4; 6])
  /\ (exists point self',
        solve sample_FEVALS_PER_STEP one_step_solve_ivp "numpy"
          {| integrator := Adaptive sample_adapter |} flat_metric
          (int_array [2%nat] [3; 4]) (int_array [2%nat] [1; 2]) = Ok (point, self')
        /\ shape point = [2%nat] /\ values point = map inject_Z [4; 6]).
Proof.
  split.
  - eexists _, _. split; [|split].
    + refine (proj2 (proj2 (solve_delegates_to_integrator sample_FEVALS_PER_STEP
                       one_step_solve_ivp "numpy"
                       {| integrator := FixedStep sample_integrator |} flat_metric
                       (int_array [2%nat] [3; 4]) (int_array [2%nat] [1; 2])
                       _ _) _ _ _ _ _ _ _ _) eq_refl [2%nat] _).
      * vm_compute. reflexivity.
      * vm_compute. reflexivity.
      * vm_compute. reflexivity.
      * vm_compute. reflexivity.
      * vm_compute. reflexivity.
      * vm_compute. reflexivity.
    + reflexivity.
    + vm_compute. reflexivity.
  - eexists _, _. split; [|split].
    + refine (proj1 (proj2 (solve_delegates_to_integrator sample_FEVALS_PER_STEP
                       one_step_solve_ivp "numpy"
                       {| integrator := Adaptive sample_adapter |} flat_metric
                       (int_array [2%nat] [3; 4]) (int_array [2%nat] [1; 2])
                       _ _) _ _ _ _ _ _ _ _) eq_refl 4%nat _).
      * vm_compute. reflexivity.
      * vm_compute. reflexivity.
      * vm_compute. reflexivity.
      * vm_compute. reflexivity.
      * vm_compute. reflexivity.
      * vm_compute. reflexivity.
    + reflexivity.
    + vm_compute. reflexivity.
Defined.

(** ** The further properties on the sample collaborators *)

Lemma integrate_reports_nfev_witness :
  exists result self',
    GSIntegrator_integrate sample_FEVALS_PER_STEP sample_rk2_integrator
      constant_field (int_array [2%nat] [3; 4]) 1%Qc = Ok (result, self')
    /\ result !! "nfev" = Some (PInt 8).
Proof.
  assert (exists result self',
            GSIntegrator_integrate sample_FEVALS_PER_STEP sample_rk2_integrator
              constant_field (int_array [2%nat] [3; 4]) 1%Qc = Ok (result, self'))
    as (result & self' & H) by (eexists _, _; vm_compute; reflexivity).
  destruct (integrate_reports_nfev _ _ _ _ _ _ _ H) as (name & c & Hty & Hc & Hn).
  cbn in Hty. injection Hty as <-. vm_compute in Hc. injection Hc as <-.
  by exists result, self'.
Defined.

Lemma integrate_caches_result_witness :
  save_result (base_of (FixedStep saving_integrator)) = true
  /\ (exists result i',
        integrate sample_FEVALS_PER_STEP one_step_solve_ivp "numpy"
          (FixedStep saving_integrator) constant_field
          (int_array [2%nat] [3; 4]) 1%Qc = Ok (result, i')
        /\ result_ (base_of i') = Some result)
  /\ (exists result i',
        integrate sample_FEVALS_PER_STEP one_step_solve_ivp "numpy"
          (Adaptive saving_adapter) zero_field_tfirst
          (int_array [2%nat] [3; 4]) 1%Qc = Ok (result, i')
        /\ result_ (base_of i') = Some result).
Proof.
  split; [reflexivity|]. split.
  - assert (exists result i',
              integrate sample_FEVALS_PER_STEP one_step_solve_ivp "numpy"
                (FixedStep saving_integrator) constant_field
                (int_array [2%nat] [3; 4]) 1%Qc = Ok (result, i'))
      as (result & i' & H) by (eexists _, _; vm_compute; reflexivity).
    exists result, i'. split; [exact H|].
    exact (proj1 (integrate_caches_result sample_FEVALS_PER_STEP
                    one_step_solve_ivp "numpy" (FixedStep saving_integrator)
                    i' constant_field (int_array [2%nat] [3; 4]) 1%Qc result
                    eq_refl H)).
  - assert (exists result i',
              integrate sample_FEVALS_PER_STEP one_step_solve_ivp "numpy"
                (Adaptive saving_adapter) zero_field_tfirst
                (int_array [2%nat] [3; 4]) 1%Qc = Ok (result, i'))
      as (result & i' & H) by (eexists _, _; vm_compute; reflexivity).
    exists result, i'. split; [exact H|].
    exact (proj1 (integrate_caches_result sample_FEVALS_PER_STEP
                    one_step_solve_ivp "numpy" (Adaptive saving_adapter)
                    i' zero_field_tfirst (int_array [2%nat] [3; 4]) 1%Qc result
                    eq_refl H)).
Defined.

Lemma integrate_trajectory_recurrence_witness :
  exists result self' dt states ts y,
    GSIntegrator_integrate sample_FEVALS_PER_STEP sample_integrator
      constant_field (int_array [2%nat] [3; 4]) 1%Qc = Ok (result, self')
    /\ py_div 1%Qc 4 = Ok dt
    /\ result !! "t" = Some (PArr ts)
    /\ result !! "y" = Some (PArr y)
    /\ gs_array states = Ok y
    /\ length states = 5%nat
    /\ states !! 0%nat = Some (int_array [2%nat] [3; 4])
    /\ (forall i, (i < 4)%nat ->
          exists prev next,
            states !! i = Some prev
            /\ states !! S i = Some next
            /\ data ts !! i = Some (Qc_of_Z (Z.of_nat i) * dt)%Qc
            /\ step sample_integrator constant_field prev
                 (Qc_of_Z (Z.of_nat i) * dt)%Qc dt = Ok next)
    /\ (exists last_state, getitem y (-1) = Ok last_state).
Proof.
  assert (exists result self',
            GSIntegrator_integrate sample_FEVALS_PER_STEP sample_integrator
              constant_field (int_array [2%nat] [3; 4]) 1%Qc = Ok (result, self'))
    as (result & self' & H) by (eexists _, _; vm_compute; reflexivity).
  destruct (integrate_trajectory_recurrence _ _ _ _ _ _ _ H)
    as (dt & states & ts & y & H1 & H2 & H3 & H4 & H5 & H6 & H7 & H8).
  exists result, self', dt, states, ts, y. done.
Defined.

Lemma step_type_setter_roundtrip_witness :
  exists self',
    set_step_type sample_STEP_FUNCTIONS sample_module sample_integrator
      (StepName "rk2") = Ok self'
    /\ step_type self' = Some "rk2"
    /\ n_steps self' = 4
    /\ gs_base self' = gs_base sample_integrator.
Proof.
  assert (exists self',
            set_step_type sample_STEP_FUNCTIONS sample_module sample_integrator
              (StepName "rk2") = Ok self') as (self' & H)
    by (eexists; reflexivity).
  destruct (step_type_setter_roundtrip sample_STEP_FUNCTIONS sample_module
              _ _ _ H) as (Hb & Hn & Hty & _).
  by exists self'.
Defined.

Lemma dangling_step_function_raises_witness :
  dangling_STEP_FUNCTIONS !! "leapfrog" = Some "leapfrog_step"
  /\ sample_module !! "leapfrog_step" = None
  /\ GSIntegrator_init dangling_STEP_FUNCTIONS sample_module None
       (Some (StepName "leapfrog")) None = Raise AttributeError
  /\ set_step_type dangling_STEP_FUNCTIONS sample_module sample_integrator
       (StepName "leapfrog") = Raise AttributeError.
Proof.
  split; [reflexivity|]. split; [reflexivity|].
  apply (dangling_step_function_raises dangling_STEP_FUNCTIONS sample_module
           "leapfrog" "leapfrog_step" sample_integrator None None);
    reflexivity.
Defined.

(** A fixed-step integrator after a construction, a call to [integrate]
    with results saved, and an assignment to [step_type]. *)
Lemma GSIntegrator_invariant_witness :
  exists g,
    GS_reachable sample_STEP_FUNCTIONS sample_FEVALS_PER_STEP sample_module
      (Some 4) (Some true) g
    /\ step_type g = Some "rk2"
    /\ is_Some (result_ (gs_base g))
    /\ state_is_raveled (gs_base g) = false
    /\ tfirst (gs_base g) = false
    /\ n_steps g = 4
    /\ save_result (gs_base g) = true.
Proof.
  assert (exists g,
            GS_reachable sample_STEP_FUNCTIONS sample_FEVALS_PER_STEP
              sample_module (Some 4) (Some true) g
            /\ step_type g = Some "rk2" /\ is_Some (result_ (gs_base g)))
    as (g & Hg & Hty & Hres).
  { eexists. split; [|split].
    - eapply GS_assigned with (value := StepName "rk2").
      + eapply GS_integrated with (force := constant_field)
          (initial_state := int_array [2%nat] [3; 4]) (end_time := 1%Qc).
        * eapply GS_constructed with (st := None). reflexivity.
        * vm_compute. reflexivity.
      + vm_compute. reflexivity.
    - reflexivity.
    - cbn. eauto. }
  destruct (GSIntegrator_invariant _ _ _ _ _ _ Hg)
    as (H1 & H2 & H3 & H4 & _ & _).
  exists g. done.
Defined.

Lemma SCPSolveIVP_invariant_witness :
  exists s,
    SCP_reachable one_step_solve_ivp "numpy" None (Some true) ∅ s
    /\ is_Some (result_ (scp_base s))
    /\ state_is_raveled (scp_base s) = true
    /\ tfirst (scp_base s) = true
    /\ method s = "RK45"
    /\ options s = ∅
    /\ save_result (scp_base s) = true.
Proof.
  assert (exists s,
            SCP_reachable one_step_solve_ivp "numpy" None (Some true) ∅ s
            /\ is_Some (result_ (scp_base s))) as (s & Hs & Hres).
  { eexists. split.
    - eapply SCP_integrated with (force := zero_field_tfirst)
        (initial_state := int_array [2%nat] [3; 4]) (end_time := 1%Qc).
      + apply SCP_constructed.
      + vm_compute. reflexivity.
    - cbn. eauto. }
  destruct (SCPSolveIVP_invariant _ _ _ _ _ _ Hs)
    as (H1 & H2 & H3 & H4 & H5 & _).
  exists s. done.
Defined.

Lemma raveled_force_agrees_with_structured_witness :
  uniform [dim flat_metric] (int_array [2%nat] [1; 2])
  /\ uniform [dim flat_metric] (int_array [2%nat] [3; 4])
  /\ _get_force {| integrator := Adaptive sample_adapter |} flat_metric
       (PFloat 0%Qc)
       (PArr (gs_flatten
                (stacked [int_array [2%nat] [1; 2]; int_array [2%nat] [3; 4]]
                   [dim flat_metric])))
     = bind (_get_force {| integrator := FixedStep sample_integrator |}
               flat_metric
               (PArr (stacked [int_array [2%nat] [1; 2]; int_array [2%nat] [3; 4]]
                        [dim flat_metric])) (PFloat 0%Qc))
         (fun eq => Ok (gs_flatten eq)).
Proof.
  split; [split; reflexivity|]. split; [split; reflexivity|].
  apply (raveled_force_agrees_with_structured sample_STEP_FUNCTIONS sample_module
           flat_metric (Some 4) None None sample_integrator None None ∅).
  - reflexivity.
  - split; reflexivity.
  - split; reflexivity.
Defined.

(** The flat state of one base point and two tangent vectors of the plane
    has eight entries. *)
Lemma raveled_force_rejects_other_lengths_witness :
  _force_raveled_state
    (PArr (int_array [8%nat] [1; 2; 1; 2; 3; 4; 5; 6])) (PFloat 0%Qc) flat_metric
  = Raise ValueError.
Proof.
  apply (raveled_force_rejects_other_lengths flat_metric
           (int_array [8%nat] [1; 2; 1; 2; 3; 4; 5; 6]) 8 (PFloat 0%Qc)).
  - reflexivity.
  - discriminate.
  - discriminate.
Defined.

Lemma solve_updates_only_cache_witness :
  (exists point self',
     solve sample_FEVALS_PER_STEP one_step_solve_ivp "numpy"
       {| integrator := FixedStep sample_integrator |} flat_metric
       (int_array [2%nat] [3; 4]) (int_array [2%nat] [1; 2]) = Ok (point, self')
     /\ self' = {| integrator := FixedStep sample_integrator |})
  /\ (exists point self' result,
        solve sample_FEVALS_PER_STEP one_step_solve_ivp "numpy"
          {| integrator := FixedStep saving_integrator |} flat_metric
          (int_array [2%nat] [3; 4]) (int_array [2%nat] [1; 2]) = Ok (point, self')
        /\ result_ (base_of (integrator self')) = Some result
        /\ _simplify_result self' result flat_metric = Ok point).
Proof.
  split.
  - assert (exists point self',
              solve sample_FEVALS_PER_STEP one_step_solve_ivp "numpy"
                {| integrator := FixedStep sample_integrator |} flat_metric
                (int_array [2%nat] [3; 4]) (int_array [2%nat] [1; 2])
              = Ok (point, self')) as (point & self' & H)
      by (eexists _, _; vm_compute; reflexivity).
    exists point, self'. split; [exact H|].
    exact (proj1 (solve_updates_only_cache sample_FEVALS_PER_STEP
                    one_step_solve_ivp "numpy"
                    {| integrator := FixedStep sample_integrator |} self'
                    flat_metric (int_array [2%nat] [3; 4])
                    (int_array [2%nat] [1; 2]) point H) eq_refl).
  - assert (exists point self',
              solve sample_FEVALS_PER_STEP one_step_solve_ivp "numpy"
                {| integrator := FixedStep saving_integrator |} flat_metric
                (int_array [2%nat] [3; 4]) (int_array [2%nat] [1; 2])
              = Ok (point, self')) as (point & self' & H)
      by (eexists _, _; vm_compute; reflexivity).
    destruct (proj2 (solve_updates_only_cache sample_FEVALS_PER_STEP
                       one_step_solve_ivp "numpy" _ _ _ _ _ _ H) eq_refl)
      as (result & Hc & Hp & _).
    exists point, self', result.
    split; [exact H|]. split; [exact Hc|exact Hp].
Defined.

Lemma adaptive_integrate_ignores_shape_witness :
  SCPSolveIVP_integrate one_step_solve_ivp "numpy" sample_adapter
    zero_field_tfirst (int_array [2%nat; 2%nat] [1; 2; 3; 4]) 1%Qc
  = SCPSolveIVP_integrate one_step_solve_ivp "numpy" sample_adapter
      zero_field_tfirst (int_array [4%nat] [1; 2; 3; 4]) 1%Qc.
Proof.
  apply (adaptive_integrate_ignores_shape one_step_solve_ivp "numpy").
  reflexivity.
Defined.

Lemma solve_of_broadcast_base_point_witness :
  gs_broadcast_to (int_array [2%nat] [1; 2]) [2%nat; 2%nat]
  = Ok (int_array [2%nat; 2%nat] [1; 2; 1; 2])
  /\ solve sample_FEVALS_PER_STEP one_step_solve_ivp "numpy"
       {| integrator := FixedStep sample_integrator |} flat_metric
       (int_array [2%nat; 2%nat] [3; 4; 5; 6])
       (int_array [2%nat; 2%nat] [1; 2; 1; 2])
     = solve sample_FEVALS_PER_STEP one_step_solve_ivp "numpy"
         {| integrator := FixedStep sample_integrator |} flat_metric
         (int_array [2%nat; 2%nat] [3; 4; 5; 6]) (int_array [2%nat] [1; 2]).
Proof.
  split; [reflexivity|].
  apply (solve_of_broadcast_base_point sample_FEVALS_PER_STEP one_step_solve_ivp
           "numpy"); reflexivity.
Defined.

Lemma step_type_last_assignment_wins_witness :
  exists self1,
    set_step_type sample_STEP_FUNCTIONS sample_module sample_integrator
      (StepCallable idle_step) = Ok self1
    /\ set_step_type sample_STEP_FUNCTIONS sample_module self1 (StepName "rk2")
       = set_step_type sample_STEP_FUNCTIONS sample_module sample_integrator
           (StepName "rk2").
Proof.
  eexists.
  refine ((fun H => conj H
             (step_type_last_assignment_wins sample_STEP_FUNCTIONS sample_module
                _ _ _ (StepName "rk2") H)) _).
  reflexivity.
Defined.

Lemma integrate_nonpositive_n_steps_witness :
  GSIntegrator_integrate sample_FEVALS_PER_STEP (euler_integrator 0)
    constant_field (int_array [2%nat] [3; 4]) 1%Qc = Raise ZeroDivisionError
  /\ GSIntegrator_integrate sample_FEVALS_PER_STEP (euler_integrator (-3))
       constant_field (int_array [2%nat] [3; 4]) 1%Qc = Raise ValueError
  /\ exists result self',
       GSIntegrator_integrate sample_FEVALS_PER_STEP (euler_integrator (-1))
         constant_field (int_array [2%nat] [3; 4]) 1%Qc = Ok (result, self')
       /\ result !! "t" = Some (PArr (mk_ndarray [0%nat] []))
       /\ result !! "y"
          = Some (PArr (stacked [int_array [2%nat] [3; 4]] [2%nat])).
Proof.
  split; [|split].
  - apply (proj1 (integrate_nonpositive_n_steps sample_FEVALS_PER_STEP
                    (euler_integrator 0) constant_field
                    (int_array [2%nat] [3; 4]) 1%Qc)).
    reflexivity.
  - apply (proj1 (proj2 (integrate_nonpositive_n_steps sample_FEVALS_PER_STEP
                           (euler_integrator (-3)) constant_field
                           (int_array [2%nat] [3; 4]) 1%Qc))).
    reflexivity.
  - assert (exists result self',
              GSIntegrator_integrate sample_FEVALS_PER_STEP
                (euler_integrator (-1)) constant_field
                (int_array [2%nat] [3; 4]) 1%Qc = Ok (result, self'))
      as (result & self' & H) by (eexists _, _; vm_compute; reflexivity).
    exists result, self'. split; [exact H|].
    exact (proj2 (proj2 (integrate_nonpositive_n_steps
                           sample_FEVALS_PER_STEP (euler_integrator (-1))
                           constant_field (int_array [2%nat] [3; 4]) 1%Qc))
             eq_refl result self' H).
Defined.

Lemma default_solver_is_ten_step_euler_witness :
  exists self g,
    ExpODESolver_init sample_STEP_FUNCTIONS sample_module None = Ok self
    /\ integrator self = FixedStep g
    /\ n_steps g = 10
    /\ step_type g = Some "euler"
    /\ (forall state t,
          _get_force self flat_metric state t = flat_geodesic_equation state t).
Proof.
  assert (exists self,
            ExpODESolver_init sample_STEP_FUNCTIONS sample_module None = Ok self)
    as (self & H) by (eexists; reflexivity).
  destruct (proj1 (proj2 (default_solver_is_ten_step_euler sample_STEP_FUNCTIONS
                            sample_module (Adaptive sample_adapter))) self H)
    as (g & Hi & Hn & Hty & _ & Hforce).
  exists self, g. split; [done|]. split; [done|]. split; [done|].
  split; [done|]. intros state t. apply (Hforce flat_metric).
Defined.
